(** * Mocky: the dynamic-route engine of [src/main.py]

    A shallow embedding of [MockyApp.convert_path],
    [MockyApp.generate_default_response], [MockyApp.create_handler] and
    [MockyApp.register_routes], and the properties of them that the
    specification states.

    Python values are the JSON-compatible trees that [yaml.safe_load],
    [json.load] and [request.json] produce.  A [dict] is a finite map with
    string keys: equality of maps is Python's [==] on dicts, which ignores
    insertion order.  Flask is outside the repository: a request is the
    record of what the handler reads from [flask.request], and a response is
    the pair of the value handed to [jsonify] and the status code.  The
    records that Flask 3.1 makes of a request are those of [flask_request]:
    there [request.json] raises unless the content type is a JSON media type
    and the body parses.

    The first part works on trees: values are immutable there.  The second
    part ([Module Store]) runs the same statements over a store of shared,
    mutable objects, shows that a handler leaves the objects it captured
    alone, and ties the run over the store to the functions on trees. *)

From Stdlib Require Import Ascii.
From stdpp Require Import gmap strings list fin_maps pretty.

#[local] Set Warnings "-register-all".
#[local] Open Scope string_scope.
#[local] Open Scope Z_scope.

(** ** Python values *)

Inductive pyval :=
| PNone
| PBool (b : bool)
| PInt (z : Z)
| PFloat (bits : Z)      (* a double, by its bit pattern; only passed along *)
| PStr (s : string)
| PList (l : list pyval)
| PDict (d : gmap string pyval).

(** The exceptions that the modelled statements can raise.  All of them are
    subclasses of [Exception], which is what the handler's [except] clauses
    catch. *)
Inductive pyexc :=
| KeyError
| TypeError
| AttributeError
| BadRequest
| UnsupportedMediaType.

(** Outcome of running a piece of Python: a value, a raised exception, or
    [OutOfModel] when the run leaves what is modelled: it builds a dict with
    a key that is not a string (Python accepts [None], booleans and numbers
    as keys; the JSON trees here do not), or, over the store, it follows a
    reference to no object. *)
Inductive pyres (A : Type) :=
| Ok (a : A)
| Raise (e : pyexc)
| OutOfModel.
Arguments Ok {A} a.
Arguments Raise {A} e.
Arguments OutOfModel {A}.

#[global] Instance pyres_ret : MRet pyres := fun _ a => Ok a.
#[global] Instance pyres_bind : MBind pyres := fun _ _ f m =>
  match m with
  | Ok a => f a
  | Raise e => Raise e
  | OutOfModel => OutOfModel
  end.

(** [isinstance(v, dict)] *)
Definition is_dict (v : pyval) : bool :=
  match v with PDict _ => true | _ => false end.

(** [v == s] for a string literal [s] *)
Definition py_eq_str (v : pyval) (s : string) : bool :=
  match v with PStr t => String.eqb t s | _ => false end.

(** [v.get(k, dflt)]: only dicts have the method. *)
Definition py_get (v : pyval) (k : string) (dflt : pyval) : pyres pyval :=
  match v with
  | PDict d => Ok (default dflt (d !! k))
  | _ => Raise AttributeError
  end.

(** [v[k]] for a string [k]: a missing key is a [KeyError]; lists and
    strings want integer indices, the scalars are not subscriptable. *)
Definition py_getitem (v : pyval) (k : string) : pyres pyval :=
  match v with
  | PDict d =>
      match d !! k with
      | Some x => Ok x
      | None => Raise KeyError
      end
  | _ => Raise TypeError
  end.

(** ** Strings

    A string is the list of its bytes in UTF-8.  The characters that the
    code looks for (braces, angle brackets, ASCII letters) are single bytes
    that occur inside no multi-byte sequence, so working on bytes is working
    on characters. *)

Fixpoint chars (s : string) : list ascii :=
  match s with
  | EmptyString => []
  | String c r => c :: chars r
  end.

(** [t in s] on strings is the substring test. *)
Fixpoint str_contains (t s : string) : bool :=
  String.prefix t s ||
  match s with
  | EmptyString => false
  | String _ r => str_contains t r
  end.

(** [k in v] for a string [k]: key membership on a dict, element membership
    on a list, substring on a string, [TypeError] on the scalars. *)
Definition py_contains (k : string) (v : pyval) : pyres bool :=
  match v with
  | PDict d => Ok (bool_decide (is_Some (d !! k)))
  | PList l => Ok (existsb (fun x => py_eq_str x k) l)
  | PStr s => Ok (str_contains k s)
  | _ => Raise TypeError
  end.

(** A string of ASCII characters only. *)
Definition is_ascii (s : string) : bool :=
  forallb (λ c, (N_of_ascii c <? 128)%N) (chars s).

(** [s.endswith(suffix)] *)
Fixpoint ends_with (suffix s : string) : bool :=
  String.eqb suffix s ||
  match s with
  | EmptyString => false
  | String _ r => ends_with suffix r
  end.

(** [str.upper()] on the ASCII letters; bytes outside [a-z] are kept.  On
    an ASCII string, as the method names of HTTP are, this is Python's
    [upper]; a string with other characters can have another upper-case
    form in Python (["poſt".upper()] is ["POST"]), and what is stated of
    methods by what they are {e not} is stated of ASCII methods. *)
Definition upper_char (c : ascii) : ascii :=
  let n := N_of_ascii c in
  if ((97 <=? n) && (n <=? 122))%N then ascii_of_N (n - 32) else c.

Fixpoint upper (s : string) : string :=
  match s with
  | EmptyString => EmptyString
  | String c r => String (upper_char c) (upper r)
  end.

(** [s.replace(old, new)] where [old] and [new] are one character each. *)
Fixpoint str_replace (old new : ascii) (s : string) : string :=
  match s with
  | EmptyString => EmptyString
  | String c r =>
      String (if Ascii.eqb c old then new else c) (str_replace old new r)
  end.

(** ** [MockyApp.convert_path] *)

Definition convert_path (openapi_path : string) : string :=
  str_replace "}" ">" (str_replace "{" "<" openapi_path).

(** What conversion does to one character. *)
Definition convert_char (c : ascii) : ascii :=
  if Ascii.eqb c "{" then "<"%char
  else if Ascii.eqb c "}" then ">"%char
  else c.

Lemma chars_str_replace old new s :
  chars (str_replace old new s) =
  (fun c => if Ascii.eqb c old then new else c) <$> chars s.
Proof. induction s as [|c r IH]; simpl; [done | by rewrite IH]. Qed.

(** C5. Path conversion maps the characters of the template one by one, in
    order: every ['{'] becomes ['<'], every ['}'] becomes ['>'], every other
    character stays; the result has no brace left, and
    ["/users/{id}/posts/{pid}"] becomes ["/users/<id>/posts/<pid>"]. *)
Theorem convert_path_spec :
  (∀ s : string,
     chars (convert_path s) = convert_char <$> chars s ∧
     String.length (convert_path s) = String.length s ∧
     ("{"%char ∉ chars (convert_path s)) ∧
     ("}"%char ∉ chars (convert_path s))) ∧
  convert_path "/users/{id}/posts/{pid}" = "/users/<id>/posts/<pid>".
Proof.
  split; [|reflexivity].
  intros s.
  assert (Hmap : chars (convert_path s) = convert_char <$> chars s).
  { unfold convert_path. rewrite !chars_str_replace, <- list_fmap_compose.
    apply list_fmap_ext. intros _ c _. unfold convert_char; simpl.
    destruct (Ascii.eqb c "{") eqn:E1; [reflexivity|].
    destruct (Ascii.eqb c "}") eqn:E2; reflexivity. }
  split; [exact Hmap|].
  split.
  { assert (Hlen : ∀ t, String.length t = length (chars t)).
    { induction t; simpl; congruence. }
    rewrite !Hlen, Hmap. by rewrite length_fmap. }
  rewrite Hmap.
  split; intros (c & Hc & _)%list_elem_of_fmap; unfold convert_char in Hc;
    destruct (Ascii.eqb c "{") eqn:E1; try discriminate;
    destruct (Ascii.eqb c "}") eqn:E2; try discriminate;
    subst c; discriminate.
Qed.

(** ** Requests and responses *)

(** What a handler reads from [flask.request]. *)
Record request := Request {
  args : list (string * string);  (* [request.args]: the query string's pairs *)
  content_type : option string;   (* [request.content_type]: the header, if any *)
  json : pyval + pyexc;           (* [request.json]: the parsed body, or
                                     the exception that reading it raises *)
}.

Definition request_json (req : request) : pyres pyval :=
  match json req with
  | inl data => Ok data
  | inr e => Raise e
  end.

(** *** The request as Flask builds it

    [request.json] is Flask's, and what it does depends on the declared
    content type: Flask 3.1, the version that [setup.py] pins, parses the
    body only when [request.is_json] holds and raises
    [UnsupportedMediaType] otherwise; a body that is no JSON raises
    [BadRequest]. *)

(** What arrives: the pairs of the query string, the [Content-Type] header
    (as WSGI hands it over, one byte per character), and what [json.loads]
    makes of the body ([None] when it raises). *)
Record wire := Wire {
  wire_args : list (string * string);
  wire_content_type : option string;
  wire_body : option pyval;
}.

(** The characters that [str.strip()] removes, among the first 256. *)
Definition is_space (c : ascii) : bool :=
  let n := N_of_ascii c in
  ((9 <=? n) && (n <=? 13) || (28 <=? n) && (n <=? 32) ||
   (n =? 133) || (n =? 160))%N.

Fixpoint strip_left (s : string) : string :=
  match s with
  | EmptyString => EmptyString
  | String c r => if is_space c then strip_left r else s
  end.

Fixpoint strip_right (s : string) : string :=
  match s with
  | EmptyString => EmptyString
  | String c r =>
      match strip_right r with
      | EmptyString => if is_space c then EmptyString else String c EmptyString
      | r' => String c r'
      end
  end.

(** [s.partition(stop)[0]] *)
Fixpoint before (stop : ascii) (s : string) : string :=
  match s with
  | EmptyString => EmptyString
  | String c r => if Ascii.eqb c stop then EmptyString else String c (before stop r)
  end.

(** [str.lower()] on the first 256 characters. *)
Definition lower_char (c : ascii) : ascii :=
  let n := N_of_ascii c in
  if ((65 <=? n) && (n <=? 90) ||
      (192 <=? n) && (n <=? 222) && negb (n =? 215))%N
  then ascii_of_N (n + 32) else c.

Fixpoint lower (s : string) : string :=
  match s with
  | EmptyString => EmptyString
  | String c r => String (lower_char c) (lower r)
  end.

(** [request.mimetype]: the header up to the first [;], stripped, in lower
    case; the empty string without a header. *)
Definition mimetype (header : option string) : string :=
  match header with
  | Some h => lower (strip_right (strip_left (before ";" h)))
  | None => EmptyString
  end.

(** [request.is_json] *)
Definition is_json (header : option string) : bool :=
  let mt := mimetype header in
  String.eqb mt "application/json" ||
  String.prefix "application/" mt && ends_with "+json" mt.

(** [request.json] *)
Definition flask_json (w : wire) : pyval + pyexc :=
  if is_json (wire_content_type w) then
    match wire_body w with
    | Some data => inl data
    | None => inr BadRequest
    end
  else inr UnsupportedMediaType.

(** The record of what the handler reads, for what arrives. *)
Definition flask_request (w : wire) : request :=
  Request (wire_args w) (wire_content_type w) (flask_json w).

(** [request.args.get(name)]: the first value under [name], else [None]. *)
Fixpoint args_get (a : list (string * string)) (name : string) : pyval :=
  match a with
  | [] => PNone
  | (k, v) :: r => if String.eqb k name then PStr v else args_get r name
  end.

(** What a handler returns: [jsonify(body)] alone stands for status 200,
    [jsonify(body), status] and [make_response(jsonify(body), status)] carry
    their status. *)
Record response := Response {
  body : pyval;
  status : Z;
}.

Definition jsonify (v : pyval) : response := Response v 200.
Definition with_status (r : response) (code : Z) : response :=
  Response (body r) code.

(** [try: body except Exception: handler] *)
Definition try_except {A} (attempt : pyres A) (handler : pyres A) : pyres A :=
  match attempt with
  | Raise _ => handler
  | r => r
  end.

(** [for x in v]: the elements of a list, the keys of a dict, the
    characters of a string; the scalars are not iterable. *)
Definition py_iter (v : pyval) : pyres (list pyval) :=
  match v with
  | PList l => Ok l
  | PDict d => Ok (PStr <$> (map_to_list d).*1)
  | PStr s => Ok ((fun c => PStr (String c EmptyString)) <$> chars s)
  | _ => Raise TypeError
  end.

(** [{**a, **b}]: both sides have to be mappings; the keys of [b] win. *)
Definition dict_merge (a b : pyval) : pyres pyval :=
  match a, b with
  | PDict da, PDict db => Ok (PDict (db ∪ da))
  | _, _ => Raise TypeError
  end.

(** [{**a, k: v}] *)
Definition dict_with (a : pyval) (k : string) (v : pyval) : pyres pyval :=
  match a with
  | PDict da => Ok (PDict (<[k := v]> da))
  | _ => Raise TypeError
  end.

(** ** [MockyApp.create_handler] *)

Section handler.
Variables (operation example : pyval) (method : string).

(** One round of the loop over the declared parameters. *)
Definition scan_param (req : request) (query_params : gmap string pyval)
    (param : pyval) : pyres (gmap string pyval) :=
  location ← py_get param "in" PNone;
  if py_eq_str location "query" then
    param_name ← py_getitem param "name";
    match param_name with
    | PStr n => Ok (<[n := args_get (args req) n]> query_params)
    | PList _ | PDict _ => Raise TypeError     (* unhashable *)
    | _ => OutOfModel
    end
  else Ok query_params.

Fixpoint scan_params (req : request) (query_params : gmap string pyval)
    (params : list pyval) : pyres (gmap string pyval) :=
  match params with
  | [] => Ok query_params
  | param :: rest =>
      query_params' ← scan_param req query_params param;
      scan_params req query_params' rest
  end.

Definition collect_query_params (req : request)
    : pyres (gmap string pyval) :=
  declared ← py_get operation "parameters" (PList []);
  params ← py_iter declared;
  scan_params req ∅ params.

(** The body of a [try] block either returns a response or falls through
    to the statement after the [if] chain ([None]). *)
Definition merge_body (req : request) : pyres (option response) :=
  data ← request_json req;
  if is_dict data && is_dict example then
    merged ← dict_merge example data;
    Ok (Some (jsonify merged))
  else Ok None.

Definition invalid_body : pyres (option response) :=
  Ok (Some (with_status
        (jsonify (PDict {["error" := PStr "Invalid request body"]})) 400)).

Definition handler (req : request) : pyres response :=
  query_params ← collect_query_params req;
  returned ←
    (if String.eqb (upper method) "POST" then
       try_except
         (if bool_decide (content_type req = Some "application/json") then
            merge_body req
          else
            Ok (Some (with_status
                  (jsonify (PDict {["error" := PStr "Unsupported Media Type"]}))
                  415)))
         invalid_body
     else if String.eqb (upper method) "GET" then
       if bool_decide (query_params ≠ ∅) then
         merged ← dict_with example "query_params" (PDict query_params);
         Ok (Some (jsonify merged))
       else Ok (Some (jsonify example))
     else if String.eqb (upper method) "PUT" then
       try_except (merge_body req) invalid_body
     else if String.eqb (upper method) "DELETE" then
       Ok (Some (with_status
             (jsonify (PDict {["message" := PStr "Resource deleted"]})) 204))
     else
       Ok (Some (with_status
             (jsonify (PDict {["error" := PStr "Method not supported"]}))
             405)));
  match returned with
  | Some r => Ok r
  | None => Ok (jsonify example)
  end.
End handler.

Definition create_handler (operation example : pyval) (method : string)
    : request → pyres response :=
  handler operation example method.

(** ** Operations that follow the data model

    An operation is a dict whose ["parameters"], when present, is a list of
    dicts, each query parameter carrying a string ["name"].  On these the
    loop over the parameters runs to its end. *)

Definition wf_param (param : pyval) : bool :=
  match param with
  | PDict d =>
      if py_eq_str (default PNone (d !! "in")) "query" then
        match d !! "name" with
        | Some (PStr _) => true
        | _ => false
        end
      else true
  | _ => false
  end.

Definition wf_operation (operation : pyval) : bool :=
  match operation with
  | PDict op =>
      match op !! "parameters" with
      | None => true
      | Some (PList params) => forallb wf_param params
      | Some _ => false
      end
  | _ => false
  end.

(** The name under which a parameter descriptor declares a query
    parameter, if it declares one. *)
Definition query_name (param : pyval) : option string :=
  match param with
  | PDict d =>
      match d !! "in", d !! "name" with
      | Some (PStr location), Some (PStr n) =>
          if String.eqb location "query" then Some n else None
      | _, _ => None
      end
  | _ => None
  end.

Definition query_names (operation : pyval) : list string :=
  match operation with
  | PDict op =>
      match op !! "parameters" with
      | Some (PList params) => omap query_name params
      | _ => []
      end
  | _ => []
  end.

(** The map from each declared name to the request's value for it. *)
Definition query_map (req : request) (names : list string)
    : gmap string pyval :=
  foldl (λ m n, <[n := args_get (args req) n]> m) ∅ names.

(** ** The parameter loop *)

Lemma scan_param_wf req qp param :
  wf_param param = true →
  scan_param req qp param =
  Ok (match query_name param with
      | Some n => <[n := args_get (args req) n]> qp
      | None => qp
      end).
Proof.
  destruct param as [| | | | |l|d]; try discriminate; simpl.
  unfold scan_param; simpl.
  destruct (d !! "in") as [[| | | |location| |]|] eqn:Ein; simpl; try done.
  destruct (String.eqb location "query") eqn:Eq; simpl; [|by destruct (d !! "name") as [[]|]].
  destruct (d !! "name") as [[| | | |n| |]|]; simpl; done.
Qed.

Lemma scan_params_wf req params : ∀ qp,
  forallb wf_param params = true →
  scan_params req qp params =
  Ok (foldl (λ m n, <[n := args_get (args req) n]> m) qp
        (omap query_name params)).
Proof.
  induction params as [|param rest IH]; intros qp Hwf; simpl; [done|].
  apply andb_prop in Hwf as [Hp Hrest].
  rewrite (scan_param_wf _ _ _ Hp); simpl.
  rewrite (IH _ Hrest). by destruct (query_name param).
Qed.

Lemma collect_query_params_wf operation req :
  wf_operation operation = true →
  collect_query_params operation req =
  Ok (query_map req (query_names operation)).
Proof.
  destruct operation as [| | | | | |op]; try discriminate; simpl.
  unfold collect_query_params, query_map; simpl.
  destruct (op !! "parameters") as [[| | | | |params|]|]; try discriminate;
    simpl; [|done].
  apply scan_params_wf.
Qed.

Lemma lookup_foldl_query req names : ∀ (qp : gmap string pyval) n,
  foldl (λ m n, <[n := args_get (args req) n]> m) qp names !! n =
  if decide (n ∈ names) then Some (args_get (args req) n) else qp !! n.
Proof.
  induction names as [|a rest IH]; intros qp n; cbn [foldl].
  - by rewrite decide_False by apply not_elem_of_nil.
  - rewrite IH. destruct (decide (n ∈ rest)) as [Hin|Hnin].
    + by rewrite decide_True by (by right).
    + destruct (decide (n = a)) as [->|Hne].
      * rewrite decide_True by left. apply lookup_insert_eq.
      * rewrite decide_False by (by intros [?|?]%elem_of_cons).
        by apply lookup_insert_ne.
Qed.

Lemma lookup_query_map req names n :
  query_map req names !! n =
  if decide (n ∈ names) then Some (args_get (args req) n) else None.
Proof. unfold query_map. by rewrite lookup_foldl_query, lookup_empty. Qed.

Lemma query_map_empty req names : query_map req names = ∅ ↔ names = [].
Proof.
  split; [|by intros ->].
  destruct names as [|n rest]; [done|]. intros H.
  apply (f_equal (λ m, m !! n)) in H.
  rewrite lookup_query_map, lookup_empty in H.
  rewrite decide_True in H by left. discriminate.
Qed.

(** ** The handler, method by method *)

Lemma bind_Ok {A B} (a : A) (f : A → pyres B) : Ok a ≫= f = f a.
Proof. reflexivity. Qed.

(** Evaluate the comparisons of the method name once it is known. *)
Ltac eval_method :=
  repeat match goal with
  | |- context [String.eqb ?a ?b] =>
      let r := eval vm_compute in (String.eqb a b) in
      change (String.eqb a b) with r
  end;
  cbv iota.

Ltac enter_handler Hwf :=
  unfold create_handler, handler;
  rewrite (collect_query_params_wf _ _ Hwf), bind_Ok.

(** When the handler answers, the loop over the parameters has run
    through. *)
Lemma handler_Ok_inv operation example method req r :
  handler operation example method req = Ok r →
  ∃ qp, collect_query_params operation req = Ok qp.
Proof.
  unfold handler. destruct (collect_query_params operation req); [eauto|done..].
Qed.

(** C7. A handler built with method DELETE (in any letter case) answers a
    request with nothing but status 204 and the body
    [{"message": "Resource deleted"}], and on an operation that follows the
    data model it does answer every request so, whatever the request and
    the example hold. *)
Theorem delete_handler_204 operation example method req :
  upper method = "DELETE" →
  (wf_operation operation = true →
     create_handler operation example method req =
     Ok (Response (PDict {["message" := PStr "Resource deleted"]}) 204)) ∧
  (∀ r, create_handler operation example method req = Ok r →
     r = Response (PDict {["message" := PStr "Resource deleted"]}) 204).
Proof.
  intros Hm. split.
  - intros Hwf. enter_handler Hwf. rewrite Hm. eval_method. reflexivity.
  - intros r Hr. destruct (handler_Ok_inv _ _ _ _ _ Hr) as [qp Hqp].
    unfold create_handler, handler in Hr. rewrite Hqp, bind_Ok, Hm in Hr.
    revert Hr. eval_method. by intros [= <-].
Qed.

Lemma delete_handler_204_witness :
  let operation :=
    PDict {["parameters" :=
              PList [PDict {["name" := PStr "force"; "in" := PStr "query"]}]]} in
  let req := Request [("force", "yes")] (Some "text/plain") (inr UnsupportedMediaType) in
  wf_operation operation = true ∧
  upper "delete" = "DELETE" ∧
  create_handler operation (PList [PInt 1; PInt 2]) "delete" req =
  Ok (Response (PDict {["message" := PStr "Resource deleted"]}) 204).
Proof.
  intros operation req. split; [reflexivity|]. split; [reflexivity|].
  apply delete_handler_204; reflexivity.
Defined.

(** C8. A handler built with a method of ASCII characters (as the method
    names of HTTP are) whose upper-case form is none of GET, POST, PUT and
    DELETE answers a request with nothing but status 405 and the body
    [{"error": "Method not supported"}], and on an operation that follows
    the data model it does answer every request so. *)
Theorem other_method_405 operation example method req :
  is_ascii method = true →
  upper method ≠ "GET" →
  upper method ≠ "POST" →
  upper method ≠ "PUT" →
  upper method ≠ "DELETE" →
  (wf_operation operation = true →
     create_handler operation example method req =
     Ok (Response (PDict {["error" := PStr "Method not supported"]}) 405)) ∧
  (∀ r, create_handler operation example method req = Ok r →
     r = Response (PDict {["error" := PStr "Method not supported"]}) 405).
Proof.
  intros _ Hget Hpost Hput Hdel.
  apply String.eqb_neq in Hget, Hpost, Hput, Hdel. split.
  - intros Hwf. enter_handler Hwf.
    rewrite Hget, Hpost, Hput, Hdel. reflexivity.
  - intros r Hr. destruct (handler_Ok_inv _ _ _ _ _ Hr) as [qp Hqp].
    unfold create_handler, handler in Hr.
    rewrite Hqp, bind_Ok, Hget, Hpost, Hput, Hdel in Hr.
    by injection Hr as <-.
Qed.

Lemma other_method_405_witness :
  let operation := PDict {["responses" := PDict ∅]} in
  let req := Request [] None (inr UnsupportedMediaType) in
  wf_operation operation = true ∧
  is_ascii "patch" = true ∧
  upper "patch" = "PATCH" ∧
  create_handler operation (PDict {["message" := PStr "test"]}) "patch" req =
  Ok (Response (PDict {["error" := PStr "Method not supported"]}) 405).
Proof.
  intros operation req. split; [reflexivity|]. split; [reflexivity|].
  split; [reflexivity|].
  apply other_method_405; (reflexivity || discriminate).
Defined.

(** C1, as the code has it. A handler built with method GET, on an
    operation that follows the data model and declares no query parameter,
    answers 200 with the example unchanged, whatever the example is.  When
    the operation declares at least one query parameter and the example is
    a key-value object, it answers 200 with the example plus the key
    ["query_params"]: that key holds the map from each declared name to the
    request's value for it ([None] when absent) and replaces a key of that
    name in the example; every other top-level key of the example is
    kept. *)
Theorem get_handler_spec operation example method req :
  wf_operation operation = true →
  upper method = "GET" →
  (query_names operation = [] →
     create_handler operation example method req =
     Ok (Response example 200)) ∧
  (∀ ex, query_names operation ≠ [] → example = PDict ex →
     ∃ qp merged,
       create_handler operation example method req =
       Ok (Response (PDict merged) 200) ∧
       merged = <["query_params" := PDict qp]> ex ∧
       (∀ n, qp !! n =
             if decide (n ∈ query_names operation)
             then Some (args_get (args req) n) else None) ∧
       merged !! "query_params" = Some (PDict qp) ∧
       (∀ k, k ≠ "query_params" → merged !! k = ex !! k)).
Proof.
  intros Hwf Hm. split.
  - intros Hnone. enter_handler Hwf. rewrite Hm. eval_method.
    rewrite Hnone. reflexivity.
  - intros ex Hsome ->.
    exists (query_map req (query_names operation)).
    eexists. split; [|split; [reflexivity|]].
    + enter_handler Hwf. rewrite Hm. eval_method.
      rewrite bool_decide_eq_true_2 by (by rewrite query_map_empty).
      reflexivity.
    + split; [apply lookup_query_map|]. split.
      * apply lookup_insert_eq.
      * intros k Hk. by apply lookup_insert_ne.
Qed.

Definition items_operation : pyval :=
  PDict {["parameters" :=
            PList [PDict {["name" := PStr "param1"; "in" := PStr "query"]}]]}.

Definition items_request : request :=
  Request [("param1", "value1")] None (inr UnsupportedMediaType).

Lemma get_handler_spec_witness :
  wf_operation items_operation = true ∧
  upper "get" = "GET" ∧
  query_names items_operation ≠ [] ∧
  ∃ qp merged,
    create_handler items_operation (PDict {["message" := PStr "test"]})
      "get" items_request = Ok (Response (PDict merged) 200) ∧
    merged = <["query_params" := PDict qp]> {["message" := PStr "test"]} ∧
    qp !! "param1" = Some (PStr "value1").
Proof.
  split; [reflexivity|]. split; [reflexivity|]. split; [discriminate|].
  destruct (get_handler_spec items_operation
              (PDict {["message" := PStr "test"]}) "get" items_request
              eq_refl eq_refl) as [_ H].
  destruct (H {["message" := PStr "test"]}) as (qp & merged & Hr & Hmerged & Hqp & _);
    [discriminate | reflexivity |].
  exists qp, merged. split; [exact Hr|]. split; [exact Hmerged|].
  rewrite Hqp. reflexivity.
Defined.

(** C1 as the specification words it fails: with a declared query
    parameter and an example that is an array, the GET handler raises
    [TypeError] and answers nothing. *)
Lemma get_handler_array_example_raises :
  query_names items_operation = ["param1"] ∧
  create_handler items_operation (PList [PDict {["id" := PInt 1]}])
    "GET" items_request = Raise TypeError ∧
  ¬ ∃ r, create_handler items_operation (PList [PDict {["id" := PInt 1]}])
           "GET" items_request = Ok r.
Proof.
  split; [reflexivity|].
  assert (H : create_handler items_operation (PList [PDict {["id" := PInt 1]}])
                "GET" items_request = Raise TypeError) by (vm_compute; reflexivity).
  split; [exact H|]. intros [r Hr]. rewrite H in Hr. discriminate.
Qed.

(** C10. For a GET handler on an operation that follows the data model and
    declares a query parameter, an example that is not a key-value object
    makes the merge [{**example, "query_params": ...}] raise [TypeError],
    and the handler with it; so whenever such a handler answers, the
    example is an object. *)
Theorem get_handler_non_object_raises operation example method req :
  wf_operation operation = true →
  upper method = "GET" →
  query_names operation ≠ [] →
  (is_dict example = false →
     dict_with example "query_params"
       (PDict (query_map req (query_names operation))) = Raise TypeError ∧
     create_handler operation example method req = Raise TypeError) ∧
  (∀ r, create_handler operation example method req = Ok r →
     is_dict example = true).
Proof.
  intros Hwf Hm Hsome.
  assert (Hraise : is_dict example = false →
            dict_with example "query_params"
              (PDict (query_map req (query_names operation))) = Raise TypeError ∧
            create_handler operation example method req = Raise TypeError).
  { intros Hex. split; [by destruct example|].
    enter_handler Hwf. rewrite Hm. eval_method.
    rewrite bool_decide_eq_true_2 by (by rewrite query_map_empty).
    by destruct example. }
  split; [exact Hraise|].
  intros r Hr. destruct (is_dict example) eqn:Hex; [done|].
  destruct (Hraise eq_refl) as [_ H]. rewrite H in Hr. discriminate.
Qed.

Lemma get_handler_non_object_raises_witness :
  wf_operation items_operation = true ∧
  upper "get" = "GET" ∧
  query_names items_operation ≠ [] ∧
  is_dict (PStr "ok") = false ∧
  create_handler items_operation (PStr "ok") "get" items_request =
  Raise TypeError.
Proof.
  split; [reflexivity|]. split; [reflexivity|]. split; [discriminate|].
  split; [reflexivity|].
  apply (get_handler_non_object_raises items_operation (PStr "ok") "get"
           items_request eq_refl eq_refl); [discriminate | reflexivity].
Defined.

(** A shallow merge reads a key from the overriding side first. *)
Lemma lookup_merge (d e : gmap string pyval) k :
  (d ∪ e) !! k = match d !! k with Some v => Some v | None => e !! k end.
Proof. rewrite lookup_union. by destruct (d !! k), (e !! k). Qed.

Lemma merge_body_dicts e d req :
  json req = inl (PDict d) →
  merge_body (PDict e) req = Ok (Some (jsonify (PDict (d ∪ e)))).
Proof. unfold merge_body, request_json. by intros ->. Qed.

Lemma merge_body_ignored example data req :
  json req = inl data →
  is_dict data && is_dict example = false →
  merge_body example req = Ok None.
Proof. unfold merge_body, request_json. intros -> Hno. simpl. by rewrite Hno. Qed.

Lemma merge_body_raises example exn req :
  json req = inr exn → merge_body example req = Raise exn.
Proof. unfold merge_body, request_json. by intros ->. Qed.

(** C2. A handler built with method POST, on an operation that follows the
    data model: when the content type is exactly
    ["application/json"] and the body parses, it answers 200 with the merge
    of example and body in which the body's keys win if both are key-value
    objects, and 200 with the example unchanged if either is not; when
    reading the body fails it answers 400 with
    [{"error": "Invalid request body"}]; when the content type is anything
    else it answers 415 with [{"error": "Unsupported Media Type"}], whatever
    reading the body would have done. *)
Theorem post_handler_spec operation example method req :
  wf_operation operation = true →
  upper method = "POST" →
  (content_type req = Some "application/json" →
     (∀ d e, json req = inl (PDict d) → example = PDict e →
        create_handler operation example method req =
        Ok (Response (PDict (d ∪ e)) 200) ∧
        ∀ k, (d ∪ e) !! k =
             match d !! k with Some v => Some v | None => e !! k end) ∧
     (∀ data, json req = inl data →
        is_dict data && is_dict example = false →
        create_handler operation example method req =
        Ok (Response example 200)) ∧
     (∀ exn, json req = inr exn →
        create_handler operation example method req =
        Ok (Response (PDict {["error" := PStr "Invalid request body"]}) 400))) ∧
  (content_type req ≠ Some "application/json" →
     ∀ j, create_handler operation example method
            (Request (args req) (content_type req) j) =
          Ok (Response (PDict {["error" := PStr "Unsupported Media Type"]}) 415)).
Proof.
  intros Hwf Hm. split.
  - intros Hct. repeat split.
    + subst example. enter_handler Hwf. rewrite Hm. eval_method.
      rewrite bool_decide_eq_true_2 by done.
      by rewrite (merge_body_dicts _ _ _ H).
    + apply lookup_merge.
    + intros data Hj Hno. enter_handler Hwf. rewrite Hm. eval_method.
      rewrite bool_decide_eq_true_2 by done.
      by rewrite (merge_body_ignored _ _ _ Hj Hno).
    + intros exn Hj. enter_handler Hwf. rewrite Hm. eval_method.
      rewrite bool_decide_eq_true_2 by done.
      by rewrite (merge_body_raises _ _ _ Hj).
  - intros Hct j. enter_handler Hwf. rewrite Hm. eval_method.
    by rewrite bool_decide_eq_false_2.
Qed.

Definition json_post (data : pyval) : request :=
  Request [] (Some "application/json") (inl data).

Lemma post_handler_spec_witness :
  let example := PDict {["message" := PStr "test"]} in
  let req := json_post (PDict {["key" := PStr "value"]}) in
  wf_operation (PDict ∅) = true ∧
  upper "post" = "POST" ∧
  content_type req = Some "application/json" ∧
  create_handler (PDict ∅) example "post" req =
  Ok (Response (PDict {["message" := PStr "test"; "key" := PStr "value"]}) 200).
Proof.
  intros example req.
  split; [reflexivity|]. split; [reflexivity|]. split; [reflexivity|].
  destruct (post_handler_spec (PDict ∅) example "post" req) as [H _];
    [reflexivity | reflexivity |].
  destruct (H eq_refl) as [Hmerge _].
  destruct (Hmerge {["key" := PStr "value"]} {["message" := PStr "test"]}
              eq_refl eq_refl) as [Hr _].
  rewrite Hr. reflexivity.
Defined.

(** What the PUT branch makes of a request record, whatever its fields. *)
Lemma put_handler_on_record operation example method a ct j :
  wf_operation operation = true →
  upper method = "PUT" →
  (∀ exn, j = inr exn →
     create_handler operation example method (Request a ct j) =
     Ok (Response (PDict {["error" := PStr "Invalid request body"]}) 400)) ∧
  (∀ d e, j = inl (PDict d) → example = PDict e →
     create_handler operation example method (Request a ct j) =
     Ok (Response (PDict (d ∪ e)) 200)) ∧
  (∀ data, j = inl data →
     is_dict data && is_dict example = false →
     create_handler operation example method (Request a ct j) =
     Ok (Response example 200)).
Proof.
  intros Hwf Hm. repeat split.
  - intros exn ->. enter_handler Hwf. rewrite Hm. eval_method.
    by rewrite (merge_body_raises _ exn).
  - intros d e -> ->. enter_handler Hwf. rewrite Hm. eval_method.
    by rewrite (merge_body_dicts _ d).
  - intros data -> Hno. enter_handler Hwf. rewrite Hm. eval_method.
    by rewrite (merge_body_ignored _ data).
Qed.

(** C3, as the code has it. A handler built with method PUT, on an
    operation that follows the data model, does not compare the content
    type itself: it reads [request.json] and answers 400 with
    [{"error": "Invalid request body"}] whenever that read raises.  With
    Flask 3.1 the read raises when the declared content type is no JSON
    media type, whatever the body is, and when the body is no JSON.  When
    the content type is a JSON media type and the body parses, the handler
    answers 200: with the merge in which the body's keys win when body and
    example are both key-value objects, with the example unchanged
    otherwise. *)
Theorem put_handler_spec operation example method w :
  wf_operation operation = true →
  upper method = "PUT" →
  (is_json (wire_content_type w) = false →
     create_handler operation example method (flask_request w) =
     Ok (Response (PDict {["error" := PStr "Invalid request body"]}) 400)) ∧
  (is_json (wire_content_type w) = true →
     (wire_body w = None →
        create_handler operation example method (flask_request w) =
        Ok (Response (PDict {["error" := PStr "Invalid request body"]}) 400)) ∧
     (∀ d e, wire_body w = Some (PDict d) → example = PDict e →
        create_handler operation example method (flask_request w) =
        Ok (Response (PDict (d ∪ e)) 200) ∧
        ∀ k, (d ∪ e) !! k =
             match d !! k with Some v => Some v | None => e !! k end) ∧
     (∀ data, wire_body w = Some data →
        is_dict data && is_dict example = false →
        create_handler operation example method (flask_request w) =
        Ok (Response example 200))).
Proof.
  intros Hwf Hm. destruct w as [a ct body_json].
  unfold flask_request, flask_json.
  cbn [wire_args wire_content_type wire_body].
  split.
  - intros ->.
    destruct (put_handler_on_record operation example method a ct
                (inr UnsupportedMediaType) Hwf Hm) as (H & _ & _).
    by apply (H UnsupportedMediaType).
  - intros ->. split; [|split].
    + intros ->.
      destruct (put_handler_on_record operation example method a ct
                  (inr BadRequest) Hwf Hm) as (H & _ & _).
      by apply (H BadRequest).
    + intros d e -> ->. split; [|apply lookup_merge].
      destruct (put_handler_on_record operation (PDict e) method a ct
                  (inl (PDict d)) Hwf Hm) as (_ & H & _).
      by apply (H d e).
    + intros data -> Hno.
      destruct (put_handler_on_record operation example method a ct
                  (inl data) Hwf Hm) as (_ & _ & H).
      by apply (H data).
Qed.

Lemma put_handler_spec_witness :
  let example := PDict {["message" := PStr "test"; "id" := PInt 1]} in
  let w := Wire [] (Some "application/json; charset=utf-8")
             (Some (PDict {["id" := PInt 7]})) in
  wf_operation (PDict ∅) = true ∧
  upper "Put" = "PUT" ∧
  is_json (wire_content_type w) = true ∧
  create_handler (PDict ∅) example "Put" (flask_request w) =
  Ok (Response (PDict {["message" := PStr "test"; "id" := PInt 7]}) 200).
Proof.
  intros example w. split; [reflexivity|]. split; [reflexivity|].
  split; [reflexivity|].
  destruct (put_handler_spec (PDict ∅) example "Put" w) as (_ & H);
    [reflexivity | reflexivity |].
  destruct (H eq_refl) as (_ & Hmerge & _).
  destruct (Hmerge {["id" := PInt 7]} {["message" := PStr "test"; "id" := PInt 1]}
              eq_refl eq_refl) as [Hr _].
  rewrite Hr. reflexivity.
Defined.

(** C3 as the specification words it fails: a PUT request whose body is the
    JSON object [{"id": 7}] and whose declared content type is
    [text/plain] is answered 400, not the merge with the example: the body
    is not parsed regardless of the declared content type. *)
Lemma put_handler_text_plain_rejected :
  let example := PDict {["message" := PStr "test"; "id" := PInt 1]} in
  let w := Wire [] (Some "text/plain") (Some (PDict {["id" := PInt 7]})) in
  create_handler (PDict ∅) example "PUT" (flask_request w) =
    Ok (Response (PDict {["error" := PStr "Invalid request body"]}) 400) ∧
  create_handler (PDict ∅) example "PUT" (flask_request w) ≠
    Ok (Response (PDict {["message" := PStr "test"; "id" := PInt 7]}) 200).
Proof.
  intros example w.
  assert (H : create_handler (PDict ∅) example "PUT" (flask_request w) =
              Ok (Response (PDict {["error" := PStr "Invalid request body"]}) 400))
    by (vm_compute; reflexivity).
  split; [exact H|]. rewrite H. intros E. inversion E.
Qed.

(** ** [MockyApp.generate_default_response] and the example of an operation *)

Definition generate_default_response (status : Z) (media_type : string)
    : pyval :=
  if String.eqb media_type "application/json" then
    PDict {["status" := PInt status; "message" := PStr "Default response"]}
  else PStr ("Default response with status " +:+ pretty status).

(** The example that [register_routes] picks for an operation. *)
Definition resolve_example (operation : pyval) : pyres pyval :=
  responses ← py_get operation "responses" (PDict ∅);
  let default_resp := generate_default_response 200 "application/json" in
  has_200 ← py_contains "200" responses;
  has_content ←
    (if has_200 : bool then
       response_200 ← py_getitem responses "200";
       py_contains "content" response_200
     else Ok false);
  if has_content : bool then
    response_200 ← py_getitem responses "200";
    content ← py_getitem response_200 "content";
    media ← py_get content "application/json" (PDict ∅);
    py_get media "example" default_resp
  else Ok default_resp.

(** The example an operation declares: the ["example"] field of the
    ["application/json"] entry of the ["content"] of its response for
    status ["200"], each step a key of a dict. *)
Definition field (k : string) (o : option pyval) : option pyval :=
  match o with
  | Some (PDict d) => d !! k
  | _ => None
  end.

Definition declared_example (operation : pyval) : option pyval :=
  field "example"
    (field "application/json"
       (field "content" (field "200" (field "responses" (Some operation))))).

(** An operation whose responses follow the data model: every step on the
    way to the example that is present is a dict. *)
Definition dict_or_absent (o : option pyval) : bool :=
  match o with
  | None | Some (PDict _) => true
  | Some _ => false
  end.

Definition wf_responses (operation : pyval) : bool :=
  let responses := field "responses" (Some operation) in
  let response_200 := field "200" responses in
  let content := field "content" response_200 in
  is_dict operation && dict_or_absent responses &&
  dict_or_absent response_200 && dict_or_absent content &&
  dict_or_absent (field "application/json" content).

Lemma py_contains_dict k (d : gmap string pyval) :
  py_contains k (PDict d) =
  Ok (match d !! k with Some _ => true | None => false end).
Proof. unfold py_contains. by destruct (d !! k). Qed.

Lemma py_get_Some (d : gmap string pyval) k x dflt :
  d !! k = Some x → py_get (PDict d) k dflt = Ok x.
Proof. unfold py_get. by intros ->. Qed.

Lemma py_get_None (d : gmap string pyval) k dflt :
  d !! k = None → py_get (PDict d) k dflt = Ok dflt.
Proof. unfold py_get. by intros ->. Qed.

Lemma py_getitem_Some (d : gmap string pyval) k x :
  d !! k = Some x → py_getitem (PDict d) k = Ok x.
Proof. unfold py_getitem. by intros ->. Qed.

Lemma resolve_example_declared operation e :
  declared_example operation = Some e → resolve_example operation = Ok e.
Proof.
  unfold declared_example, resolve_example.
  generalize (generate_default_response 200 "application/json") as dflt.
  intros dflt.
  destruct operation as [| | | | | |op]; try discriminate. cbn [field].
  destruct (op !! "responses") as [[| | | | | |rs]|] eqn:Ers; try discriminate.
  rewrite (py_get_Some _ _ _ _ Ers), bind_Ok, py_contains_dict. cbn [field].
  destruct (rs !! "200") as [[| | | | | |r]|] eqn:E200; try discriminate.
  rewrite !bind_Ok, !(py_getitem_Some _ _ _ E200), !bind_Ok, py_contains_dict.
  cbn [field].
  destruct (r !! "content") as [[| | | | | |c]|] eqn:Ec; try discriminate.
  rewrite !bind_Ok, (py_getitem_Some _ _ _ Ec), bind_Ok. cbn [field].
  destruct (c !! "application/json") as [[| | | | | |m]|] eqn:Em;
    try discriminate.
  rewrite (py_get_Some _ _ _ _ Em), bind_Ok. cbn [field].
  intros He. by apply py_get_Some.
Qed.

Lemma resolve_example_default operation :
  wf_responses operation = true →
  declared_example operation = None →
  resolve_example operation =
  Ok (generate_default_response 200 "application/json").
Proof.
  unfold wf_responses, declared_example, resolve_example.
  generalize (generate_default_response 200 "application/json") as dflt.
  intros dflt.
  destruct operation as [| | | | | |op]; try discriminate.
  cbn [field is_dict andb].
  destruct (op !! "responses") as [[| | | | | |rs]|] eqn:Ers; try discriminate;
    cbn [field dict_or_absent andb].
  2: { intros _ _. rewrite (py_get_None _ _ _ Ers), bind_Ok, py_contains_dict.
       by rewrite lookup_empty. }
  rewrite (py_get_Some _ _ _ _ Ers), bind_Ok, py_contains_dict.
  destruct (rs !! "200") as [[| | | | | |r]|] eqn:E200; try discriminate;
    cbn [field dict_or_absent andb]; [|done].
  rewrite !bind_Ok, !(py_getitem_Some _ _ _ E200), !bind_Ok, py_contains_dict.
  destruct (r !! "content") as [[| | | | | |c]|] eqn:Ec; try discriminate;
    cbn [field dict_or_absent andb]; [|done].
  rewrite !bind_Ok, (py_getitem_Some _ _ _ Ec), bind_Ok.
  destruct (c !! "application/json") as [[| | | | | |m]|] eqn:Em;
    try discriminate; cbn [field dict_or_absent andb]; intros _.
  - rewrite (py_get_Some _ _ _ _ Em), bind_Ok. intros He. by apply py_get_None.
  - rewrite (py_get_None _ _ _ Em), bind_Ok. intros _.
    apply py_get_None, lookup_empty.
Qed.

(** C4. Example resolution returns the declared example itself when the
    operation has a response for status ["200"] whose ["content"] has an
    ["application/json"] entry with an ["example"] field; otherwise, on an
    operation whose responses follow the data model, it returns the
    synthesized default.  The default for status 200 is
    [{"status": 200, "message": "Default response"}] for the JSON media type
    and the string ["Default response with status 200"] for any other. *)
Theorem resolve_example_spec operation :
  wf_responses operation = true →
  (∀ e, declared_example operation = Some e →
        resolve_example operation = Ok e) ∧
  (declared_example operation = None →
     resolve_example operation =
     Ok (PDict {["status" := PInt 200; "message" := PStr "Default response"]})) ∧
  generate_default_response 200 "application/json" =
    PDict {["status" := PInt 200; "message" := PStr "Default response"]} ∧
  (∀ media_type, media_type ≠ "application/json" →
     generate_default_response 200 media_type =
     PStr "Default response with status 200").
Proof.
  intros Hwf. split; [apply resolve_example_declared|].
  split; [by apply resolve_example_default|].
  split; [reflexivity|].
  intros media_type Hne. unfold generate_default_response.
  apply String.eqb_neq in Hne. rewrite Hne. reflexivity.
Qed.

Definition test_operation : pyval :=
  PDict {["responses" := PDict {["200" := PDict {["content" :=
    PDict {["application/json" :=
      PDict {["example" := PDict {["message" := PStr "test"]}]}]}]}]}]}.

Lemma resolve_example_spec_witness :
  wf_responses test_operation = true ∧
  resolve_example test_operation = Ok (PDict {["message" := PStr "test"]}) ∧
  wf_responses (PDict {["summary" := PStr "no responses"]}) = true ∧
  resolve_example (PDict {["summary" := PStr "no responses"]}) =
  Ok (PDict {["status" := PInt 200; "message" := PStr "Default response"]}).
Proof.
  split; [reflexivity|]. split.
  - apply (resolve_example_spec test_operation); reflexivity.
  - split; [reflexivity|].
    apply (resolve_example_spec (PDict {["summary" := PStr "no responses"]}));
      reflexivity.
Defined.

(** ** [MockyApp.register_routes] *)

(** A rule of the router: what [add_url_rule] is given. *)
Record rule := Rule {
  rule_path : string;
  endpoint : string;
  view_func : request → pyres response;
  rule_methods : list string;
}.

(** The part of [self] that registration writes. *)
Record app := App {
  url_map : list rule;                (* the rules of [self.app], oldest first *)
  dynamic_routes_counter : option Z;  (* [None] when [self.meter] is [None] *)
}.

(** [self.app.add_url_rule(...)]: Flask's router, taken as keeping the rules
    in the order they come.  What Flask refuses (a rule without a leading
    slash, an endpoint that is used twice) is not modelled: of registration
    is stated only what holds when it completes. *)
Definition add_url_rule (a : app) (r : rule) : app :=
  App (url_map a ++ [r]) (dynamic_routes_counter a).

(** [if self.meter: self.dynamic_routes_counter.add(1)] *)
Definition count_route (a : app) : app :=
  App (url_map a) ((λ n, n + 1) <$> dynamic_routes_counter a).

(** [v.items()]: the pairs of a dict.  Python yields them in the order of
    insertion, which a finite map does not record; here they come in the
    order of the map, and of the order of registration is stated only what
    holds for every order. *)
Definition py_items (v : pyval) : pyres (list (string * pyval)) :=
  match v with
  | PDict d => Ok (map_to_list d)
  | _ => Raise AttributeError
  end.

(** The body of the inner loop. *)
Definition register_operation (flask_path method : string)
    (operation : pyval) (a : app) : pyres app :=
  example ← resolve_example operation;
  let handler := create_handler operation example method in
  Ok (add_url_rule (count_route a)
        (Rule flask_path (flask_path +:+ "_" +:+ method) handler
              [upper method])).

Fixpoint register_methods (flask_path : string)
    (items : list (string * pyval)) (a : app) : pyres app :=
  match items with
  | [] => Ok a
  | (method, operation) :: rest =>
      a' ← register_operation flask_path method operation a;
      register_methods flask_path rest a'
  end.

Fixpoint register_paths (items : list (string * pyval)) (a : app)
    : pyres app :=
  match items with
  | [] => Ok a
  | (openapi_path, methods) :: rest =>
      let flask_path := convert_path openapi_path in
      method_items ← py_items methods;
      a' ← register_methods flask_path method_items a;
      register_paths rest a'
  end.

(** The function has no [return]: its value is [None].  An exception
    aborts start-up, so no state is kept on that path. *)
Definition register_routes (openapi_spec : pyval) (a : app)
    : pyres (pyval * app) :=
  paths ← py_get openapi_spec "paths" (PDict ∅);
  path_items ← py_items paths;
  a' ← register_paths path_items a;
  Ok (PNone, a').

(** The number of (path, method) pairs under ["paths"]. *)
Definition path_operations (methods : pyval) : nat :=
  match methods with
  | PDict m => size m
  | _ => 0%nat
  end.

Definition operation_count (openapi_spec : pyval) : nat :=
  match openapi_spec with
  | PDict s =>
      match s !! "paths" with
      | Some (PDict paths) =>
          sum_list (path_operations <$> (map_to_list paths).*2)
      | _ => 0%nat
      end
  | _ => 0%nat
  end.

Definition test_spec : pyval :=
  PDict {["paths" := PDict {["/test" := PDict {["get" := test_operation]}]}]}.

Lemma bind_Ok_inv {A B} (m : pyres A) (f : A → pyres B) b :
  m ≫= f = Ok b → ∃ a, m = Ok a ∧ f a = Ok b.
Proof. destruct m; try discriminate. eauto. Qed.

Lemma register_operation_grows flask_path method operation a a' :
  register_operation flask_path method operation a = Ok a' →
  length (url_map a') = S (length (url_map a)) ∧
  dynamic_routes_counter a' = (λ n, n + 1) <$> dynamic_routes_counter a.
Proof.
  unfold register_operation. intros (example & _ & [= <-])%bind_Ok_inv.
  simpl. rewrite length_app. simpl. split; [lia | done].
Qed.

Lemma register_methods_grows flask_path items : ∀ a a',
  register_methods flask_path items a = Ok a' →
  length (url_map a') = (length (url_map a) + length items)%nat ∧
  dynamic_routes_counter a' =
    (λ n, n + Z.of_nat (length items)) <$> dynamic_routes_counter a.
Proof.
  induction items as [|[method operation] rest IH]; intros a a'; simpl.
  - intros [= <-]. split; [lia|]. destruct (dynamic_routes_counter a); simpl;
      [f_equal; lia | done].
  - intros (a1 & H1 & Hrest)%bind_Ok_inv.
    apply register_operation_grows in H1 as [Hlen1 Hc1].
    apply IH in Hrest as [Hlen Hc]. split; [lia|].
    rewrite Hc, Hc1. destruct (dynamic_routes_counter a); simpl;
      [f_equal; lia | done].
Qed.

Lemma register_paths_grows items : ∀ a a',
  register_paths items a = Ok a' →
  length (url_map a') =
    (length (url_map a) + sum_list (path_operations <$> items.*2))%nat ∧
  dynamic_routes_counter a' =
    (λ n, n + Z.of_nat (sum_list (path_operations <$> items.*2)))
      <$> dynamic_routes_counter a.
Proof.
  induction items as [|[openapi_path methods] rest IH]; intros a a';
    cbn [register_paths].
  - intros [= <-]. split; [simpl; lia|]. destruct (dynamic_routes_counter a);
      simpl; [f_equal; lia | done].
  - intros (method_items & Hitems & (a1 & H1 & Hrest)%bind_Ok_inv)%bind_Ok_inv.
    destruct methods as [| | | | | |m]; try discriminate.
    injection Hitems as <-.
    apply register_methods_grows in H1 as [Hlen1 Hc1].
    apply IH in Hrest as [Hlen Hc].
    rewrite length_map_to_list in Hlen1, Hc1.
    rewrite !fmap_cons. cbn [snd path_operations].
    change (sum_list (size m :: ?l)) with (size m + sum_list l)%nat.
    split; [lia|].
    rewrite Hc, Hc1. destruct (dynamic_routes_counter a); simpl;
      [f_equal; lia | done].
Qed.

Lemma resolve_example_total operation :
  wf_responses operation = true → ∃ e, resolve_example operation = Ok e.
Proof.
  intros Hwf. destruct (declared_example operation) as [e|] eqn:E.
  - exists e. by apply resolve_example_declared.
  - eexists. by apply resolve_example_default.
Qed.

(** C6, as the code has it. Registration returns [None], not a count.
    When it completes, the router has gained exactly one rule per
    (path, method) pair of the specification, and the route counter, when
    metering is on, has gone up by that number. *)
Theorem register_routes_count openapi_spec a v a' :
  register_routes openapi_spec a = Ok (v, a') →
  v = PNone ∧
  length (url_map a') =
    (length (url_map a) + operation_count openapi_spec)%nat ∧
  dynamic_routes_counter a' =
    (λ n, n + Z.of_nat (operation_count openapi_spec))
      <$> dynamic_routes_counter a.
Proof.
  unfold register_routes.
  intros (paths & Hpaths & (items & Hitems & (a1 & Hreg & [= <- <-])%bind_Ok_inv)
            %bind_Ok_inv)%bind_Ok_inv.
  split; [done|].
  apply register_paths_grows in Hreg.
  destruct openapi_spec as [| | | | | |s]; try discriminate.
  unfold py_get in Hpaths. injection Hpaths as <-.
  unfold operation_count.
  destruct (s !! "paths") as [p|]; simpl in Hitems.
  - destruct p as [| | | | | |d]; try discriminate.
    injection Hitems as <-. exact Hreg.
  - injection Hitems as <-. rewrite map_to_list_empty in Hreg. exact Hreg.
Qed.

Lemma register_routes_count_witness :
  ∃ a', register_routes test_spec (App [] (Some 0)) = Ok (PNone, a') ∧
        length (url_map a') = 1%nat ∧
        dynamic_routes_counter a' = Some 1.
Proof.
  eexists. split; [reflexivity|].
  eapply (register_routes_count test_spec (App [] (Some 0)) PNone).
  reflexivity.
Defined.

(** C6 as the specification words it fails: registering the one operation
    of the test specification completes and returns [None], which is not
    the count 1. *)
Lemma register_routes_returns_none :
  operation_count test_spec = 1%nat ∧
  ∃ a', register_routes test_spec (App [] None) = Ok (PNone, a') ∧
        PNone ≠ PInt (Z.of_nat (operation_count test_spec)).
Proof.
  split; [reflexivity|]. eexists. split; [reflexivity | discriminate].
Qed.

(** * The handler over a store of objects

    Python dicts and lists are mutable objects that are shared by
    reference.  To state that a handler leaves the operation and the example
    it captured alone, the same statements are run here over an explicit
    store: a value is a scalar or a reference, the objects live in the
    store, [{...}] and [[]] allocate, and [d[k] = v] writes in place. *)

(** The tree-level [isinstance(v, dict)], under a name that the store-level
    one does not hide. *)
Abbreviation tree_is_dict := is_dict (only parsing).
Abbreviation tree_try_except := try_except (only parsing).

Module Store.

Definition loc := positive.

Inductive val :=
| VNone
| VBool (b : bool)
| VInt (z : Z)
| VFloat (bits : Z)
| VStr (s : string)
| VRef (l : loc).

Inductive obj :=
| ODict (d : gmap string val)
| OList (l : list val).

Abbreviation store := (gmap loc obj).

(** The tree that a value stands for in a store, read down to a depth;
    [None] when the depth does not suffice or a reference dangles. *)
Fixpoint reify (depth : nat) (σ : store) (v : val) : option pyval :=
  match v with
  | VNone => Some PNone
  | VBool b => Some (PBool b)
  | VInt z => Some (PInt z)
  | VFloat bits => Some (PFloat bits)
  | VStr s => Some (PStr s)
  | VRef l =>
      match depth with
      | O => None
      | S depth' =>
          match σ !! l with
          | Some (ODict d) =>
              let trees := reify depth' σ <$> d in
              if bool_decide (map_Forall (λ _, is_Some) trees)
              then Some (PDict (omap id trees)) else None
          | Some (OList vs) =>
              PList <$> mapM (reify depth' σ) vs
          | None => None
          end
      end
  end.

(** ** Reading: functions of the store *)

Definition reader (A : Type) := store → pyres A.

#[export] Instance reader_ret : MRet reader := λ _ a _, Ok a.
#[export] Instance reader_bind : MBind reader := λ _ _ f m σ,
  match m σ with
  | Ok a => f a σ
  | Raise e => Raise e
  | OutOfModel => OutOfModel
  end.

Definition raise {A} (e : pyexc) : reader A := λ _, Raise e.

(** The object behind a reference; a dangling reference is not a state
    Python can be in. *)
Definition deref (l : loc) : reader obj := λ σ,
  match σ !! l with
  | Some o => Ok o
  | None => OutOfModel
  end.

(** [isinstance(v, dict)] *)
Definition is_dict (v : val) : reader bool :=
  match v with
  | VRef l => o ← deref l; mret (match o with ODict _ => true | _ => false end)
  | _ => mret false
  end.

(** [v == s] for a string literal [s] *)
Definition eq_str (v : val) (s : string) : bool :=
  match v with VStr t => String.eqb t s | _ => false end.

(** The mapping behind [**v]. *)
Definition as_mapping (v : val) : reader (gmap string val) :=
  match v with
  | VRef l =>
      o ← deref l;
      match o with
      | ODict d => mret d
      | OList _ => raise TypeError
      end
  | _ => raise TypeError
  end.

(** [v.get(k, dflt)] *)
Definition get (v : val) (k : string) (dflt : val) : reader val :=
  match v with
  | VRef l =>
      o ← deref l;
      match o with
      | ODict d => mret (default dflt (d !! k))
      | OList _ => raise AttributeError
      end
  | _ => raise AttributeError
  end.

(** [v[k]] for a string [k] *)
Definition getitem (v : val) (k : string) : reader val :=
  match v with
  | VRef l =>
      o ← deref l;
      match o with
      | ODict d =>
          match d !! k with
          | Some x => mret x
          | None => raise KeyError
          end
      | OList _ => raise TypeError
      end
  | _ => raise TypeError
  end.

(** [k in v] for a string [k] *)
Definition contains (k : string) (v : val) : reader bool :=
  match v with
  | VRef l =>
      o ← deref l;
      match o with
      | ODict d => mret (bool_decide (is_Some (d !! k)))
      | OList vs => mret (existsb (λ x, eq_str x k) vs)
      end
  | VStr s => mret (str_contains k s)
  | _ => raise TypeError
  end.

(** [for x in v] *)
Definition iter (v : val) : reader (list val) :=
  match v with
  | VRef l =>
      o ← deref l;
      match o with
      | ODict d => mret (VStr <$> (map_to_list d).*1)
      | OList vs => mret vs
      end
  | VStr s => mret ((λ c, VStr (String c EmptyString)) <$> chars s)
  | _ => raise TypeError
  end.

(** [bool(v)] for [v] a dict *)
Definition dict_nonempty (v : val) : reader bool :=
  d ← as_mapping v; mret (bool_decide (d ≠ ∅)).

(** ** Running: allocation and writes *)

Definition run (A : Type) := store → pyres A * store.

#[export] Instance run_ret : MRet run := λ _ a σ, (Ok a, σ).
#[export] Instance run_bind : MBind run := λ _ _ f m σ,
  match m σ with
  | (Ok a, σ') => f a σ'
  | (Raise e, σ') => (Raise e, σ')
  | (OutOfModel, σ') => (OutOfModel, σ')
  end.

Definition read {A} (r : reader A) : run A := λ σ, (r σ, σ).
Definition throw {A} (e : pyexc) : run A := λ σ, (Raise e, σ).
Definition out_of_model {A} : run A := λ σ, (OutOfModel, σ).

(** A new object, at a location the store does not use. *)
Definition alloc (o : obj) : run val := λ σ,
  let l := fresh (dom σ) in (Ok (VRef l), <[l := o]> σ).

(** [target[k] = v]: only a dict takes a string key. *)
Definition setitem (target : val) (k : string) (v : val) : run unit := λ σ,
  match target with
  | VRef l =>
      match σ !! l with
      | Some (ODict d) => (Ok (), <[l := ODict (<[k := v]> d)]> σ)
      | Some (OList _) => (Raise TypeError, σ)
      | None => (OutOfModel, σ)
      end
  | _ => (Raise TypeError, σ)
  end.

(** [try: attempt except Exception: handler] *)
Definition try_except {A} (attempt handler : run A) : run A := λ σ,
  match attempt σ with
  | (Raise _, σ') => handler σ'
  | r => r
  end.

Record request := Request {
  args : list (string * string);
  content_type : option string;
  json : val + pyexc;
}.

Definition request_json (req : request) : run val :=
  match json req with
  | inl data => mret data
  | inr e => throw e
  end.

Fixpoint args_get (a : list (string * string)) (name : string) : val :=
  match a with
  | [] => VNone
  | (k, v) :: r => if String.eqb k name then VStr v else args_get r name
  end.

Record response := Response {
  body : val;     (* the value handed to [jsonify] *)
  status : Z;
}.

Definition jsonify (v : val) : response := Response v 200.
Definition with_status (r : response) (code : Z) : response :=
  Response (body r) code.

(** [{**a, **b}] *)
Definition dict_merge (a b : val) : run val :=
  da ← read (as_mapping a);
  db ← read (as_mapping b);
  alloc (ODict (db ∪ da)).

(** [{**a, k: v}] *)
Definition dict_with (a : val) (k : string) (v : val) : run val :=
  da ← read (as_mapping a);
  alloc (ODict (<[k := v]> da)).

(** [jsonify({k: s}), code] *)
Definition message (k s : string) (code : Z) : run (option response) :=
  literal ← alloc (ODict {[k := VStr s]});
  mret (Some (with_status (jsonify literal) code)).

Section handler.
Variables (operation example : val) (method : string).

Definition scan_param (req : request) (query_params param : val)
    : run unit :=
  location ← read (get param "in" VNone);
  if eq_str location "query" then
    param_name ← read (getitem param "name");
    match param_name with
    | VStr n => setitem query_params n (args_get (args req) n)
    | VRef _ => throw TypeError      (* unhashable *)
    | _ => out_of_model
    end
  else mret ().

Fixpoint scan_params (req : request) (query_params : val)
    (params : list val) : run unit :=
  match params with
  | [] => mret ()
  | param :: rest =>
      scan_param req query_params param;;
      scan_params req query_params rest
  end.

Definition merge_body (req : request) : run (option response) :=
  data ← request_json req;
  data_is_dict ← read (is_dict data);
  example_is_dict ← read (is_dict example);
  if data_is_dict && example_is_dict then
    merged ← dict_merge example data;
    mret (Some (jsonify merged))
  else mret None.

Definition invalid_body : run (option response) :=
  message "error" "Invalid request body" 400.

Definition collect_query_params (req : request) : run val :=
  query_params ← alloc (ODict ∅);
  no_parameters ← alloc (OList []);
  declared ← read (get operation "parameters" no_parameters);
  params ← read (iter declared);
  scan_params req query_params params;;
  mret query_params.

Definition handler (req : request) : run response :=
  query_params ← collect_query_params req;
  returned ←
    (if String.eqb (upper method) "POST" then
       try_except
         (if bool_decide (content_type req = Some "application/json") then
            merge_body req
          else message "error" "Unsupported Media Type" 415)
         invalid_body
     else if String.eqb (upper method) "GET" then
       nonempty ← read (dict_nonempty query_params);
       if nonempty : bool then
         merged ← dict_with example "query_params" query_params;
         mret (Some (jsonify merged))
       else mret (Some (jsonify example))
     else if String.eqb (upper method) "PUT" then
       try_except (merge_body req) invalid_body
     else if String.eqb (upper method) "DELETE" then
       message "message" "Resource deleted" 204
     else message "error" "Method not supported" 405);
  match returned with
  | Some r => mret r
  | None => mret (jsonify example)
  end.
End handler.

Definition create_handler (operation example : val) (method : string)
    : request → run response :=
  handler operation example method.

(** [MockyApp.generate_default_response]: the dict is a new object. *)
Definition generate_default_response (status : Z) (media_type : string)
    : run val :=
  if String.eqb media_type "application/json" then
    alloc (ODict {["status" := VInt status;
                   "message" := VStr "Default response"]})
  else mret (VStr ("Default response with status " +:+ pretty status)).

(** The example that [register_routes] picks for an operation. *)
Definition resolve_example (operation : val) : run val :=
  no_responses ← alloc (ODict ∅);
  responses ← read (get operation "responses" no_responses);
  default_resp ← generate_default_response 200 "application/json";
  has_200 ← read (contains "200" responses);
  has_content ←
    (if has_200 : bool then
       response_200 ← read (getitem responses "200");
       read (contains "content" response_200)
     else mret false);
  if has_content : bool then
    response_200 ← read (getitem responses "200");
    content ← read (getitem response_200 "content");
    no_media ← alloc (ODict ∅);
    media ← read (get content "application/json" no_media);
    read (get media "example" default_resp)
  else mret default_resp.

(** ** What a run leaves in place *)

(** [keeps σ0 m Q]: run from any store that holds the objects of [σ0]
    unchanged, [m] ends in such a store, and the value it returns
    satisfies [Q]. *)
Definition keeps {A} (σ0 : store) (m : run A) (Q : A → Prop) : Prop :=
  ∀ σ r σ', σ0 ⊆ σ → m σ = (r, σ') →
    σ0 ⊆ σ' ∧ ∀ a, r = Ok a → Q a.

(** A reference to an object that [σ0] does not hold. *)
Definition new_in (σ0 : store) (v : val) : Prop :=
  ∃ l, v = VRef l ∧ σ0 !! l = None.

Lemma keeps_ret {A} σ0 (a : A) (Q : A → Prop) : Q a → keeps σ0 (mret a) Q.
Proof. intros HQ σ r σ' Hσ [= <- <-]. split; [done|]. by intros ? [= <-]. Qed.

Lemma keeps_bind {A B} σ0 (m : run A) (f : A → run B) Q R :
  keeps σ0 m Q → (∀ a, Q a → keeps σ0 (f a) R) → keeps σ0 (m ≫= f) R.
Proof.
  intros Hm Hf σ r σ' Hσ. unfold mbind, run_bind.
  destruct (m σ) as [[a|e|] σ1] eqn:Em; destruct (Hm _ _ _ Hσ Em) as [H1 HQ].
  - intros Hfa. by apply (Hf a (HQ a eq_refl) σ1).
  - intros [= <- <-]. split; [done | discriminate].
  - intros [= <- <-]. split; [done | discriminate].
Qed.

Lemma keeps_weaken {A} σ0 (m : run A) (Q R : A → Prop) :
  keeps σ0 m Q → (∀ a, Q a → R a) → keeps σ0 m R.
Proof.
  intros Hm HQR σ r σ' Hσ Em. destruct (Hm _ _ _ Hσ Em) as [H1 HQ].
  split; [done|]. intros a Ha. by apply HQR, HQ.
Qed.

Lemma keeps_read {A} σ0 (r : reader A) : keeps σ0 (read r) (λ _, True).
Proof. by intros σ r' σ' Hσ [= <- <-]. Qed.

Lemma keeps_throw {A} σ0 e (Q : A → Prop) : keeps σ0 (throw e) Q.
Proof. intros σ r σ' Hσ [= <- <-]. split; [done | discriminate]. Qed.

Lemma keeps_out_of_model {A} σ0 (Q : A → Prop) : keeps σ0 out_of_model Q.
Proof. intros σ r σ' Hσ [= <- <-]. split; [done | discriminate]. Qed.

Lemma fresh_unused (σ : store) : σ !! fresh (dom σ) = None.
Proof. apply not_elem_of_dom, is_fresh. Qed.

Lemma keeps_alloc σ0 o : keeps σ0 (alloc o) (new_in σ0).
Proof.
  intros σ r σ' Hσ [= <- <-].
  assert (H0 : σ0 !! fresh (dom σ) = None).
  { eapply lookup_weaken_None; [apply fresh_unused | done]. }
  split; [by apply insert_subseteq_r|].
  intros a [= <-]. by eexists.
Qed.

Lemma keeps_setitem σ0 target k v :
  new_in σ0 target → keeps σ0 (setitem target k v) (λ _, True).
Proof.
  intros (l & -> & Hl) σ r σ' Hσ. unfold setitem.
  destruct (σ !! l) as [[d|vs]|]; intros [= <- <-]; split; try done.
  by apply insert_subseteq_r.
Qed.

Lemma keeps_try_except {A} σ0 (attempt handler : run A) Q :
  keeps σ0 attempt Q → keeps σ0 handler Q →
  keeps σ0 (try_except attempt handler) Q.
Proof.
  intros Ha Hh σ r σ' Hσ. unfold try_except.
  destruct (attempt σ) as [[a|e|] σ1] eqn:Ea;
    destruct (Ha _ _ _ Hσ Ea) as [H1 HQ].
  - intros [= <- <-]. done.
  - intros Eh. by apply (Hh σ1).
  - intros [= <- <-]. split; [done | discriminate].
Qed.

Create HintDb keeps discriminated.
#[local] Hint Resolve keeps_read keeps_throw keeps_out_of_model
  keeps_alloc : keeps.

(** The body of a reply is the example as it was captured, or an object
    made during the call. *)
Definition example_or_new (σ0 : store) (example : val) (r : response)
    : Prop :=
  body r = example ∨ new_in σ0 (body r).

Definition returns_example_or_new (σ0 : store) (example : val)
    (returned : option response) : Prop :=
  match returned with
  | Some r => example_or_new σ0 example r
  | None => True
  end.

Lemma keeps_message σ0 example k s code :
  keeps σ0 (message k s code) (returns_example_or_new σ0 example).
Proof.
  unfold message. eapply keeps_bind; [apply keeps_alloc|].
  intros literal Hnew. apply keeps_ret. by right.
Qed.

Lemma keeps_dict_merge σ0 a b : keeps σ0 (dict_merge a b) (new_in σ0).
Proof.
  unfold dict_merge.
  eapply keeps_bind; [apply keeps_read|]. intros da _.
  eapply keeps_bind; [apply keeps_read|]. intros db _.
  apply keeps_alloc.
Qed.

Lemma keeps_dict_with σ0 a k v : keeps σ0 (dict_with a k v) (new_in σ0).
Proof.
  unfold dict_with.
  eapply keeps_bind; [apply keeps_read|]. intros da _.
  apply keeps_alloc.
Qed.

Lemma keeps_request_json σ0 req : keeps σ0 (request_json req) (λ _, True).
Proof.
  unfold request_json. destruct (json req); [by apply keeps_ret|].
  apply keeps_throw.
Qed.

Lemma keeps_merge_body σ0 example req :
  keeps σ0 (merge_body example req) (returns_example_or_new σ0 example).
Proof.
  unfold merge_body.
  eapply keeps_bind; [apply keeps_request_json|]. intros data _.
  eapply keeps_bind; [apply keeps_read|]. intros data_is_dict _.
  eapply keeps_bind; [apply keeps_read|]. intros example_is_dict _.
  destruct (data_is_dict && example_is_dict); [|by apply keeps_ret].
  eapply keeps_bind; [apply keeps_dict_merge|].
  intros merged Hnew. apply keeps_ret. by right.
Qed.

Lemma keeps_scan_param σ0 req query_params param :
  new_in σ0 query_params →
  keeps σ0 (scan_param req query_params param) (λ _, True).
Proof.
  intros Hnew. unfold scan_param.
  eapply keeps_bind; [apply keeps_read|]. intros location _.
  destruct (eq_str location "query"); [|by apply keeps_ret].
  eapply keeps_bind; [apply keeps_read|]. intros param_name _.
  destruct param_name; auto with keeps.
  by apply keeps_setitem.
Qed.

Lemma keeps_scan_params σ0 req query_params params :
  new_in σ0 query_params →
  keeps σ0 (scan_params req query_params params) (λ _, True).
Proof.
  intros Hnew. induction params as [|param rest IH]; simpl.
  - by apply keeps_ret.
  - eapply keeps_bind; [by apply keeps_scan_param|]. by intros _ _.
Qed.

Lemma keeps_collect_query_params σ0 operation req :
  keeps σ0 (collect_query_params operation req) (new_in σ0).
Proof.
  unfold collect_query_params.
  eapply keeps_bind; [apply keeps_alloc|]. intros query_params Hqp.
  eapply keeps_bind; [apply keeps_alloc|]. intros no_parameters _.
  eapply keeps_bind; [apply keeps_read|]. intros declared _.
  eapply keeps_bind; [apply keeps_read|]. intros params _.
  eapply keeps_bind; [by apply keeps_scan_params|]. intros _ _.
  by apply keeps_ret.
Qed.

Lemma keeps_handler σ0 operation example method req :
  keeps σ0 (handler operation example method req)
    (example_or_new σ0 example).
Proof.
  unfold handler.
  eapply keeps_bind; [apply keeps_collect_query_params|].
  intros query_params _.
  apply keeps_bind with (Q := returns_example_or_new σ0 example).
  - destruct (String.eqb (upper method) "POST").
    { apply keeps_try_except; [|apply keeps_message].
      case_bool_decide; [apply keeps_merge_body | apply keeps_message]. }
    destruct (String.eqb (upper method) "GET").
    { eapply keeps_bind; [apply keeps_read|]. intros [|] _.
      - eapply keeps_bind; [apply keeps_dict_with|].
        intros merged Hnew. apply keeps_ret. by right.
      - apply keeps_ret. by left. }
    destruct (String.eqb (upper method) "PUT").
    { apply keeps_try_except; [apply keeps_merge_body | apply keeps_message]. }
    destruct (String.eqb (upper method) "DELETE"); apply keeps_message.
  - intros [r|] Hr; apply keeps_ret; [exact Hr | by left].
Qed.

(** A tree that a value stands for stays the tree it stands for as long
    as the objects of the store stay. *)
Lemma reify_weaken depth : ∀ (σ σ' : store) v t,
  σ ⊆ σ' → reify depth σ v = Some t → reify depth σ' v = Some t.
Proof.
  induction depth as [|depth IH]; intros σ σ' v t Hσ;
    destruct v as [| | | | |l]; simpl; try done.
  destruct (σ !! l) as [o|] eqn:El; [|done].
  rewrite (lookup_weaken _ _ _ _ El Hσ).
  destruct o as [d|vs].
  - case_bool_decide as Hall; [|done]. intros Ht.
    assert (Heq : reify depth σ' <$> d = reify depth σ <$> d).
    { apply map_fmap_ext. intros k x Hx.
      destruct (Hall k (reify depth σ x)) as [tx Htx].
      { rewrite lookup_fmap, Hx. done. }
      rewrite Htx. by apply (IH σ). }
    rewrite Heq. by rewrite bool_decide_eq_true_2.
  - destruct (mapM (reify depth σ) vs) as [ts|] eqn:Ets; [|done].
    intros Ht. apply mapM_Some in Ets.
    assert (Ets' : mapM (reify depth σ') vs = Some ts).
    { apply mapM_Some. eapply Forall2_impl; [exact Ets|].
      intros x tx Hx. by apply (IH σ). }
    by rewrite Ets'.
Qed.

(** ** The store-level runs against the tree-level functions *)

(** [v] stands for the tree [t] in [σ]. *)
Definition denotes (σ : store) (v : val) (t : pyval) : Prop :=
  ∃ depth, reify depth σ v = Some t.

Lemma denotes_weaken (σ σ' : store) v t :
  σ ⊆ σ' → denotes σ v t → denotes σ' v t.
Proof. intros Hσ [depth H]. exists depth. by eapply reify_weaken. Qed.

(** What a denoted value looks like, one level down. *)
Definition denotes_fields (σ : store) (d : gmap string val)
    (td : gmap string pyval) : Prop :=
  ∀ k, match d !! k, td !! k with
       | Some x, Some tx => denotes σ x tx
       | None, None => True
       | _, _ => False
       end.

Lemma denotes_inv σ v t :
  denotes σ v t →
  match v with
  | VNone => t = PNone
  | VBool b => t = PBool b
  | VInt z => t = PInt z
  | VFloat bits => t = PFloat bits
  | VStr s => t = PStr s
  | VRef l =>
      match σ !! l with
      | Some (ODict d) => ∃ td, t = PDict td ∧ denotes_fields σ d td
      | Some (OList vs) => ∃ ts, t = PList ts ∧ Forall2 (denotes σ) vs ts
      | None => False
      end
  end.
Proof.
  intros [depth H]. destruct v as [| | | | |l];
    try (destruct depth; simpl in H; congruence).
  destruct depth as [|depth]; [done|]. simpl in H.
  destruct (σ !! l) as [[d|vs]|]; [| |done].
  - case_bool_decide as Hall; [|done]. injection H as <-.
    eexists. split; [done|]. intros k.
    rewrite lookup_omap, lookup_fmap.
    destruct (d !! k) as [x|] eqn:Ex; simpl; [|done].
    destruct (Hall k (reify depth σ x)) as [tx Htx].
    { by rewrite lookup_fmap, Ex. }
    rewrite Htx. simpl. by exists depth.
  - destruct (mapM (reify depth σ) vs) as [ts|] eqn:Ets; [|done].
    injection H as <-. exists ts. split; [done|].
    apply mapM_Some in Ets. eapply Forall2_impl; [exact Ets|].
    intros x tx Hx. by exists depth.
Qed.

(** How a reader's outcome matches a tree-level outcome. *)
Definition matches {A B} (R : A → B → Prop) (r : pyres A) (p : pyres B)
    : Prop :=
  match p, r with
  | Ok b, Ok a => R a b
  | Raise e, Raise e' => e = e'
  | OutOfModel, OutOfModel => True
  | _, _ => False
  end.

(** [m], run from [σ], only adds objects, and its outcome matches [p]. *)
Definition sim {A B} (R : store → A → B → Prop) (σ : store) (m : run A)
    (p : pyres B) : Prop :=
  ∃ r σ', m σ = (r, σ') ∧ σ ⊆ σ' ∧ matches (R σ') r p.

Lemma run_bind_unfold {A B} (m : run A) (f : A → run B) σ :
  (m ≫= f) σ =
  match m σ with
  | (Ok a, σ') => f a σ'
  | (Raise e, σ') => (Raise e, σ')
  | (OutOfModel, σ') => (OutOfModel, σ')
  end.
Proof. reflexivity. Qed.

Lemma sim_ret {A B} (R : store → A → B → Prop) σ a b :
  R σ a b → sim R σ (mret a) (Ok b).
Proof. intros H. by exists (Ok a), σ. Qed.

Lemma sim_read {A B} (R : store → A → B → Prop) σ (r : reader A) p :
  matches (R σ) (r σ) p → sim R σ (read r) p.
Proof. intros H. by exists (r σ), σ. Qed.

Lemma sim_bind {A B A' B'} (R : store → A → B → Prop)
    (S : store → A' → B' → Prop) σ m (f : A → run A') p (g : B → pyres B') :
  sim R σ m p →
  (∀ σ' a b, σ ⊆ σ' → R σ' a b → sim S σ' (f a) (g b)) →
  sim S σ (m ≫= f) (p ≫= g).
Proof.
  intros (r & σ1 & Em & Hσ & Hr) Hf. unfold sim.
  rewrite run_bind_unfold, Em.
  destruct p as [b|e|], r as [a|e'|]; simpl in Hr; try done.
  - destruct (Hf σ1 a b Hσ Hr) as (r2 & σ2 & E2 & Hσ2 & H2).
    exists r2, σ2. split; [done|]. split; [by etrans | done].
  - subst e'. by exists (Raise e), σ1.
  - by exists OutOfModel, σ1.
Qed.

(** An allocation that the tree level does not see. *)
Lemma sim_alloc {A B} (S : store → A → B → Prop) σ o (f : val → run A) p :
  (∀ l σ', σ ⊆ σ' → σ' !! l = Some o → sim S σ' (f (VRef l)) p) →
  sim S σ (alloc o ≫= f) p.
Proof.
  intros Hf. unfold sim. rewrite run_bind_unfold. unfold alloc.
  destruct (Hf (fresh (dom σ)) (<[fresh (dom σ) := o]> σ))
    as (r & σ' & E & Hσ & H).
  - apply insert_subseteq, fresh_unused.
  - apply lookup_insert_eq.
  - exists r, σ'. split; [done|]. split; [|done].
    etrans; [|exact Hσ]. apply insert_subseteq, fresh_unused.
Qed.

(** Reads of what stands for a tree in [σb] give the same in every
    store that holds the objects of [σb]. *)
Lemma deref_weaken (σb σ : store) l :
  σb ⊆ σ → is_Some (σb !! l) → σ !! l = σb !! l.
Proof. intros Hσ [o Ho]. rewrite Ho. by eapply lookup_weaken. Qed.

Lemma denotes_ref_is_Some σ l t : denotes σ (VRef l) t → is_Some (σ !! l).
Proof. intros H%denotes_inv. by destruct (σ !! l). Qed.

Lemma get_matches σb σ v t k dflt tdflt :
  σb ⊆ σ → denotes σb v t → denotes σb dflt tdflt →
  matches (denotes σb) (get v k dflt σ) (py_get t k tdflt).
Proof.
  intros Hσ Hv Hd. pose proof (denotes_inv _ _ _ Hv) as Hi.
  destruct v as [| | | | |l]; try (subst t; done).
  unfold get, mbind, reader_bind, deref.
  rewrite (deref_weaken _ _ _ Hσ (denotes_ref_is_Some _ _ _ Hv)).
  destruct (σb !! l) as [[d|vs]|]; [| |done].
  - destruct Hi as (td & -> & Hf). specialize (Hf k). simpl.
    unfold mret, reader_ret.
    by destruct (d !! k), (td !! k).
  - by destruct Hi as (ts & -> & _).
Qed.

Lemma getitem_matches σb σ v t k :
  σb ⊆ σ → denotes σb v t →
  matches (denotes σb) (getitem v k σ) (py_getitem t k).
Proof.
  intros Hσ Hv. pose proof (denotes_inv _ _ _ Hv) as Hi.
  destruct v as [| | | | |l]; try (subst t; done).
  unfold getitem, mbind, reader_bind, deref.
  rewrite (deref_weaken _ _ _ Hσ (denotes_ref_is_Some _ _ _ Hv)).
  destruct (σb !! l) as [[d|vs]|]; [| |done].
  - destruct Hi as (td & -> & Hf). specialize (Hf k). simpl.
    by destruct (d !! k), (td !! k).
  - by destruct Hi as (ts & -> & _).
Qed.

Lemma eq_str_denotes σ x tx k :
  denotes σ x tx → eq_str x k = py_eq_str tx k.
Proof.
  intros H. apply denotes_inv in H.
  destruct x as [| | | | |l]; try (subst tx; done).
  destruct (σ !! l) as [[d|vs]|]; [| |done].
  - by destruct H as (td & -> & _).
  - by destruct H as (ts & -> & _).
Qed.

Lemma contains_matches σ v t k :
  denotes σ v t →
  matches (λ a b, a = b) (contains k v σ) (py_contains k t).
Proof.
  intros Hv. apply denotes_inv in Hv.
  destruct v as [| | | | |l]; try (subst t; done).
  unfold contains, mbind, reader_bind, deref.
  destruct (σ !! l) as [[d|vs]|]; [| |done].
  - destruct Hv as (td & -> & Hf). specialize (Hf k). simpl.
    destruct (d !! k), (td !! k); try done.
  - destruct Hv as (ts & -> & Hall). simpl.
    induction Hall as [|x tx vs' ts' Hx _ IH]; [done|]. simpl.
    by rewrite (eq_str_denotes _ _ _ _ Hx), IH.
Qed.

Lemma reify_deeper depth : ∀ depth' (σ : store) v t,
  (depth ≤ depth')%nat → reify depth σ v = Some t →
  reify depth' σ v = Some t.
Proof.
  induction depth as [|depth IH]; intros depth' σ v t Hle;
    destruct v as [| | | | |l]; destruct depth' as [|depth'];
    simpl; try done; try lia.
  destruct (σ !! l) as [[d|vs]|]; [| |done].
  - case_bool_decide as Hall; [|done]. intros Ht.
    assert (Heq : reify depth' σ <$> d = reify depth σ <$> d).
    { apply map_fmap_ext. intros k x Hx.
      destruct (Hall k (reify depth σ x)) as [tx Htx].
      { by rewrite lookup_fmap, Hx. }
      rewrite Htx. apply (IH depth'); [lia | done]. }
    rewrite Heq. by rewrite bool_decide_eq_true_2.
  - destruct (mapM (reify depth σ) vs) as [ts|] eqn:Ets; [|done].
    intros Ht. apply mapM_Some in Ets.
    assert (Ets' : mapM (reify depth' σ) vs = Some ts).
    { apply mapM_Some. eapply Forall2_impl; [exact Ets|].
      intros x tx Hx. apply (IH depth'); [lia | done]. }
    by rewrite Ets'.
Qed.

(** Finitely many fields are read at one common depth. *)
Lemma fields_depth (σ : store) (td : gmap string pyval)
    (d : gmap string val) :
  denotes_fields σ d td →
  ∃ depth, ∀ k x, d !! k = Some x → td !! k = reify depth σ x.
Proof.
  revert td. induction d as [|k x d Hk IH] using map_ind; intros td Hf.
  { exists O. intros k x. by rewrite lookup_empty. }
  destruct (IH (delete k td)) as [n Hn].
  { intros j. specialize (Hf j). destruct (decide (j = k)) as [->|Hne].
    - by rewrite Hk, lookup_delete_eq.
    - by rewrite lookup_insert_ne, lookup_delete_ne in * by done. }
  pose proof (Hf k) as Hfk. rewrite lookup_insert_eq in Hfk.
  destruct (td !! k) as [tx|] eqn:Etx; [|done]. destruct Hfk as [m Hm].
  exists (n `max` m)%nat. intros j y.
  destruct (decide (j = k)) as [->|Hne].
  - rewrite lookup_insert_eq. intros [= <-]. rewrite Etx. symmetry.
    apply (reify_deeper m); [lia | done].
  - rewrite lookup_insert_ne by done. intros Hy.
    pose proof (Hn j y Hy) as Hj. rewrite lookup_delete_ne in Hj by done.
    specialize (Hf j). rewrite lookup_insert_ne, Hy in Hf by done.
    destruct (td !! j) as [ty|] eqn:Ety; [|done].
    symmetry. apply (reify_deeper n); [lia | done].
Qed.

Lemma denotes_dict (σ : store) l d td :
  σ !! l = Some (ODict d) → denotes_fields σ d td →
  denotes σ (VRef l) (PDict td).
Proof.
  intros Hl Hf. destruct (fields_depth _ _ _ Hf) as [n Hn].
  exists (S n). simpl. rewrite Hl.
  assert (Hall : map_Forall (λ _ : string, is_Some) (reify n σ <$> d)).
  { intros k o. rewrite lookup_fmap. destruct (d !! k) as [x|] eqn:Ex; [|done].
    intros [= <-]. rewrite <- (Hn k x Ex). specialize (Hf k).
    rewrite Ex in Hf. by destruct (td !! k). }
  rewrite bool_decide_eq_true_2 by done. do 2 f_equal.
  apply map_eq. intros k. rewrite lookup_omap, lookup_fmap.
  specialize (Hf k). destruct (d !! k) as [x|] eqn:Ex; simpl.
  - by rewrite <- (Hn k x Ex).
  - by destruct (td !! k).
Qed.

Lemma is_dict_matches σ v t :
  denotes σ v t →
  matches (λ a b, a = b) (is_dict v σ) (Ok (tree_is_dict t)).
Proof.
  intros Hv. apply denotes_inv in Hv.
  destruct v as [| | | | |l]; try (subst t; done).
  unfold is_dict, mbind, reader_bind, deref.
  destruct (σ !! l) as [[d|vs]|]; [| |done].
  - by destruct Hv as (td & -> & _).
  - by destruct Hv as (ts & -> & _).
Qed.

Lemma as_mapping_dict σ v td :
  denotes σ v (PDict td) →
  ∃ d, as_mapping v σ = Ok d ∧ denotes_fields σ d td.
Proof.
  intros Hv. apply denotes_inv in Hv.
  destruct v as [| | | | |l]; try done.
  unfold as_mapping, mbind, reader_bind, deref.
  destruct (σ !! l) as [[d|vs]|]; [| |done].
  - destruct Hv as (td' & [= <-] & Hf). by exists d.
  - by destruct Hv as (ts & ? & _).
Qed.

Lemma as_mapping_other σ v t :
  denotes σ v t → tree_is_dict t = false → as_mapping v σ = Raise TypeError.
Proof.
  intros Hv Ht. apply denotes_inv in Hv.
  destruct v as [| | | | |l]; try done.
  unfold as_mapping, mbind, reader_bind, deref.
  destruct (σ !! l) as [[d|vs]|]; [| |done].
  - destruct Hv as (td & -> & _). done.
  - done.
Qed.

Lemma fields_keys (σ : store) (d : gmap string val) td :
  denotes_fields σ d td → (map_to_list d).*1 = (map_to_list td).*1.
Proof.
  intros Hf.
  assert (Heq : (λ _, ()) <$> d = (λ _, ()) <$> td).
  { apply map_eq. intros k. rewrite !lookup_fmap. specialize (Hf k).
    by destruct (d !! k), (td !! k). }
  apply (f_equal (λ m, (map_to_list m).*1)) in Heq.
  rewrite !map_to_list_fmap, <- !list_fmap_compose in Heq.
  etrans; [|etrans; [exact Heq|]]; apply list_fmap_ext; by intros ? [].
Qed.

Lemma iter_matches σb σ v t :
  σb ⊆ σ → denotes σb v t →
  matches (Forall2 (denotes σb)) (iter v σ) (py_iter t).
Proof.
  intros Hσ Hv. pose proof (denotes_inv _ _ _ Hv) as Hi.
  destruct v as [| | | | |l]; try (subst t; done).
  - subst t. simpl. induction (chars s); constructor; [by exists O | done].
  - unfold iter, mbind, reader_bind, deref.
    rewrite (deref_weaken _ _ _ Hσ (denotes_ref_is_Some _ _ _ Hv)).
    destruct (σb !! l) as [[d|vs]|]; [| |done].
    + destruct Hi as (td & -> & Hf). simpl.
      rewrite (fields_keys _ _ _ Hf).
      induction ((map_to_list td).*1); constructor; [by exists O | done].
    + by destruct Hi as (ts & -> & Hall).
Qed.

Lemma run_read_bind {A B} (r : reader A) (f : A → run B) σ :
  (read r ≫= f) σ =
  match r σ with
  | Ok a => f a σ
  | Raise e => (Raise e, σ)
  | OutOfModel => (OutOfModel, σ)
  end.
Proof. rewrite run_bind_unfold. unfold read. by destruct (r σ). Qed.

(** A read that the tree level does not see. *)
Lemma sim_read_left {A B C} (S : store → B → C → Prop) σ (r : reader A) a
    (f : A → run B) p :
  r σ = Ok a → sim S σ (f a) p → sim S σ (read r ≫= f) p.
Proof. intros Hr H. unfold sim. by rewrite run_read_bind, Hr. Qed.

Lemma sim_try_except {A B} (R : store → A → B → Prop) σ m hm p hp :
  sim R σ m p →
  (∀ σ', σ ⊆ σ' → sim R σ' hm hp) →
  sim R σ (try_except m hm) (tree_try_except p hp).
Proof.
  intros (r & σ1 & Em & Hσ & Hr) Hh. unfold sim, try_except. rewrite Em.
  destruct p as [b|e|], r as [a|e'|]; simpl in Hr; try done.
  - by exists (Ok a), σ1.
  - destruct (Hh σ1 Hσ) as (r2 & σ2 & E2 & Hσ2 & H2).
    exists r2, σ2. split; [done|]. split; [by etrans | done].
  - by exists OutOfModel, σ1.
Qed.

Lemma fields_empty (σ : store) (d : gmap string val) td :
  denotes_fields σ d td → d = ∅ ↔ td = ∅.
Proof.
  intros Hf. split; intros ->; apply map_eq; intros k; specialize (Hf k);
    rewrite lookup_empty in *.
  - by destruct (td !! k).
  - by destruct (d !! k).
Qed.

Lemma fields_weaken (σ σ' : store) d td :
  σ ⊆ σ' → denotes_fields σ d td → denotes_fields σ' d td.
Proof.
  intros Hσ Hf k. specialize (Hf k).
  destruct (d !! k), (td !! k); try done. by eapply denotes_weaken.
Qed.

Lemma fields_insert (σ : store) d td k v t :
  denotes σ v t → denotes_fields σ d td →
  denotes_fields σ (<[k := v]> d) (<[k := t]> td).
Proof.
  intros Hv Hf j. destruct (decide (j = k)) as [->|Hne].
  - by rewrite !lookup_insert_eq.
  - rewrite !lookup_insert_ne by done. apply Hf.
Qed.

Lemma fields_union (σ : store) d1 td1 d2 td2 :
  denotes_fields σ d1 td1 → denotes_fields σ d2 td2 →
  denotes_fields σ (d1 ∪ d2) (td1 ∪ td2).
Proof.
  intros H1 H2 k. specialize (H1 k). specialize (H2 k).
  rewrite !lookup_union.
  destruct (d1 !! k), (td1 !! k), (d2 !! k), (td2 !! k); done.
Qed.

End Store.

(** ** Resolution over the store does what resolution on trees does *)

Lemma default_response_denotes (σ : Store.store) l :
  σ !! l = Some (Store.ODict {["status" := Store.VInt 200;
                               "message" := Store.VStr "Default response"]}) →
  Store.denotes σ (Store.VRef l)
    (generate_default_response 200 "application/json").
Proof. intros Hl. exists 1%nat. simpl. rewrite Hl. reflexivity. Qed.

Lemma empty_dict_denotes (σ : Store.store) l :
  σ !! l = Some (Store.ODict ∅) → Store.denotes σ (Store.VRef l) (PDict ∅).
Proof. intros Hl. exists 1%nat. simpl. rewrite Hl. reflexivity. Qed.

Lemma resolve_example_sim (σ : Store.store) operation t :
  Store.denotes σ operation t →
  Store.sim Store.denotes σ (Store.resolve_example operation)
    (resolve_example t).
Proof.
  intros Hop. unfold Store.resolve_example, resolve_example.
  apply Store.sim_alloc. intros l1 σ1 Hσ1 Hl1.
  apply Store.denotes_weaken with (σ' := σ1) in Hop; [|done].
  eapply Store.sim_bind.
  { apply Store.sim_read, Store.get_matches; [done | done |].
    by apply empty_dict_denotes. }
  intros σ2 responses tresponses Hσ2 Hres.
  unfold Store.generate_default_response.
  change (String.eqb "application/json" "application/json") with true.
  cbv iota.
  apply Store.sim_alloc. intros l3 σ3 Hσ3 Hl3.
  apply Store.denotes_weaken with (σ' := σ3) in Hres; [|done].
  pose proof (default_response_denotes _ _ Hl3) as Hdflt.
  revert Hdflt.
  generalize (generate_default_response 200 "application/json") as dflt.
  intros dflt Hdflt.
  eapply Store.sim_bind with (R := λ _ a b, a = b).
  { by apply Store.sim_read, Store.contains_matches. }
  intros σ4 has_200 ? Hσ4 <-.
  apply Store.denotes_weaken with (σ' := σ4) in Hres, Hdflt; [|done..].
  eapply Store.sim_bind with (R := λ _ a b, a = b).
  { destruct has_200; [|by apply Store.sim_ret].
    eapply Store.sim_bind.
    { by apply Store.sim_read, Store.getitem_matches. }
    intros σ5 r200 tr200 Hσ5 Hr200.
    by apply Store.sim_read, Store.contains_matches. }
  intros σ5 has_content ? Hσ5 <-.
  apply Store.denotes_weaken with (σ' := σ5) in Hres, Hdflt; [|done..].
  destruct has_content; [|by apply Store.sim_ret].
  eapply Store.sim_bind.
  { by apply Store.sim_read, Store.getitem_matches. }
  intros σ6 r200 tr200 Hσ6 Hr200.
  eapply Store.sim_bind.
  { by apply Store.sim_read, Store.getitem_matches. }
  intros σ7 content tcontent Hσ7 Hcontent.
  apply Store.sim_alloc. intros l8 σ8 Hσ8 Hl8.
  apply Store.denotes_weaken with (σ' := σ8) in Hcontent; [|done].
  eapply Store.sim_bind.
  { apply Store.sim_read, Store.get_matches; [done | done |].
    by apply empty_dict_denotes. }
  intros σ9 media tmedia Hσ9 Hmedia.
  apply Store.sim_read, Store.get_matches; [done | done |].
  eapply Store.denotes_weaken; [|exact Hdflt].
  repeat (etrans; [eassumption|]). done.
Qed.

(** ** The handler over the store does what the handler on trees does *)

Definition request_denotes (σ : Store.store) (sreq : Store.request)
    (req : request) : Prop :=
  Store.args sreq = args req ∧
  Store.content_type sreq = content_type req ∧
  match Store.json sreq, json req with
  | inl v, inl t => Store.denotes σ v t
  | inr e, inr e' => e = e'
  | _, _ => False
  end.

Definition response_denotes (σ : Store.store) (a : Store.response)
    (b : response) : Prop :=
  Store.status a = status b ∧ Store.denotes σ (Store.body a) (body b).

Definition returned_denotes (σ : Store.store) (a : option Store.response)
    (b : option response) : Prop :=
  match a, b with
  | Some a, Some b => response_denotes σ a b
  | None, None => True
  | _, _ => False
  end.

Lemma args_get_denotes (σ : Store.store) a n :
  Store.denotes σ (Store.args_get a n) (args_get a n).
Proof.
  exists O. induction a as [|[k v] r IH]; simpl; [done|].
  by destruct (String.eqb k n).
Qed.

(** The dict that the loop fills, at [lq], holds [query_params]. *)
Definition collecting (lq : Store.loc) (query_params : gmap string pyval)
    (σ : Store.store) : Prop :=
  ∃ qd, σ !! lq = Some (Store.ODict qd) ∧
        Store.denotes_fields ∅ qd query_params.

Lemma scan_param_sim (σb σ : Store.store) lq sreq req param tparam qp :
  σb !! lq = None → σb ⊆ σ →
  Store.args sreq = args req →
  Store.denotes σb param tparam →
  collecting lq qp σ →
  ∃ r σ',
    Store.scan_param sreq (Store.VRef lq) param σ = (r, σ') ∧ σb ⊆ σ' ∧
    Store.matches (λ _ qp', collecting lq qp' σ') r (scan_param req qp tparam).
Proof.
  intros Hlq Hσ Hargs Hparam (qd & Hqd & Hf).
  unfold Store.scan_param, scan_param. rewrite Store.run_read_bind.
  pose proof (Store.get_matches σb σ param tparam "in" Store.VNone PNone Hσ
                Hparam (ex_intro _ O eq_refl)) as Hin.
  destruct (py_get tparam "in" PNone) as [tloc|e|],
    (Store.get param "in" Store.VNone σ) as [location|e'|];
    simpl in Hin; try done.
  2: { subst e'. by exists (Raise e), σ. }
  2: { by exists OutOfModel, σ. }
  rewrite bind_Ok, (Store.eq_str_denotes _ _ _ _ Hin).
  destruct (py_eq_str tloc "query").
  2: { exists (Ok ()), σ. split; [done|]. split; [done|]. by exists qd. }
  rewrite Store.run_read_bind.
  pose proof (Store.getitem_matches σb σ param tparam "name" Hσ Hparam) as Hn.
  destruct (py_getitem tparam "name") as [tname|e|],
    (Store.getitem param "name" σ) as [name|e'|];
    simpl in Hn; try done.
  2: { subst e'. by exists (Raise e), σ. }
  2: { by exists OutOfModel, σ. }
  rewrite bind_Ok. pose proof (Store.denotes_inv _ _ _ Hn) as Hi.
  destruct name as [| | | |n|l]; try (subst tname; by exists OutOfModel, σ).
  - subst tname. unfold Store.setitem. rewrite Hqd, Hargs.
    eexists _, _. split; [done|]. split; [by apply insert_subseteq_r|].
    eexists. split; [apply lookup_insert_eq|].
    apply Store.fields_insert; [apply args_get_denotes | done].
  - exists (Raise TypeError), σ. split; [done|]. split; [done|].
    destruct (σb !! l) as [[d|vs]|]; [| |done].
    + by destruct Hi as (td & -> & _).
    + by destruct Hi as (ts & -> & _).
Qed.

Lemma scan_params_sim (σb : Store.store) lq sreq req params tparams :
  σb !! lq = None →
  Store.args sreq = args req →
  Forall2 (Store.denotes σb) params tparams →
  ∀ σ qp, σb ⊆ σ → collecting lq qp σ →
  ∃ r σ',
    Store.scan_params sreq (Store.VRef lq) params σ = (r, σ') ∧ σb ⊆ σ' ∧
    Store.matches (λ _ qp', collecting lq qp' σ') r
      (scan_params req qp tparams).
Proof.
  intros Hlq Hargs Hall.
  induction Hall as [|param tparam params tparams Hp _ IH]; intros σ qp Hσ Hc.
  { by exists (Ok ()), σ. }
  cbn [Store.scan_params scan_params].
  destruct (scan_param_sim σb σ lq sreq req param tparam qp)
    as (r & σ1 & E1 & Hσ1 & H1); try done.
  rewrite Store.run_bind_unfold, E1.
  destruct (scan_param req qp tparam) as [qp1|e|], r as [[]|e'|];
    simpl in H1; try done.
  - rewrite bind_Ok. by apply IH.
  - subst e'. by exists (Raise e), σ1.
  - by exists OutOfModel, σ1.
Qed.

Lemma collecting_denotes (σ : Store.store) lq qp :
  collecting lq qp σ → Store.denotes σ (Store.VRef lq) (PDict qp).
Proof.
  intros (qd & Hqd & Hf). eapply Store.denotes_dict; [done|].
  eapply Store.fields_weaken; [|done]. apply map_empty_subseteq.
Qed.

Lemma collect_query_params_sim (σ : Store.store) operation top sreq req :
  Store.denotes σ operation top →
  Store.args sreq = args req →
  Store.sim (λ σ' v qp, Store.denotes σ' v (PDict qp)) σ
    (Store.collect_query_params operation sreq)
    (collect_query_params top req).
Proof.
  intros Hop Hargs.
  unfold Store.sim, Store.collect_query_params, collect_query_params.
  rewrite Store.run_bind_unfold. unfold Store.alloc at 1. cbv zeta.
  pose proof (Store.fresh_unused σ) as Hlq.
  set (lq := fresh (dom σ)) in *.
  set (σ1 := <[lq := Store.ODict ∅]> σ).
  rewrite Store.run_bind_unfold. unfold Store.alloc at 1. cbv zeta.
  pose proof (Store.fresh_unused σ1) as Hl2.
  set (l2 := fresh (dom σ1)) in *.
  set (σ2 := <[l2 := Store.OList []]> σ1).
  assert (Hne : l2 ≠ lq).
  { intros Heq. rewrite Heq in Hl2. unfold σ1 in Hl2.
    by rewrite lookup_insert_eq in Hl2. }
  assert (Hl2σ : σ !! l2 = None).
  { unfold σ1 in Hl2. by rewrite lookup_insert_ne in Hl2. }
  set (σb := <[l2 := Store.OList []]> σ).
  assert (Hσb : σ ⊆ σb) by by apply insert_subseteq.
  assert (Hblq : σb !! lq = None).
  { unfold σb. by rewrite lookup_insert_ne. }
  assert (Hσ2 : σb ⊆ σ2).
  { unfold σ2, σ1. rewrite insert_insert_ne by done.
    by apply insert_subseteq. }
  assert (Hc : collecting lq ∅ σ2).
  { exists ∅. split.
    - unfold σ2, σ1. rewrite lookup_insert_ne by done. apply lookup_insert_eq.
    - intros k. by rewrite !lookup_empty. }
  assert (Hnone : Store.denotes σb (Store.VRef l2) (PList [])).
  { exists 1%nat. simpl. unfold σb. by rewrite lookup_insert_eq. }
  apply Store.denotes_weaken with (σ' := σb) in Hop; [|done].
  rewrite Store.run_read_bind.
  pose proof (Store.get_matches σb σ2 operation top "parameters"
                (Store.VRef l2) (PList []) Hσ2 Hop Hnone) as Hget.
  destruct (py_get top "parameters" (PList [])) as [tdeclared|e|],
    (Store.get operation "parameters" (Store.VRef l2) σ2) as [declared|e'|];
    simpl in Hget; try done.
  2: { subst e'. exists (Raise e), σ2. split; [done|]. split; [by etrans|done]. }
  2: { exists OutOfModel, σ2. split; [done|]. split; [by etrans|done]. }
  rewrite bind_Ok, Store.run_read_bind.
  pose proof (Store.iter_matches σb σ2 declared tdeclared Hσ2 Hget) as Hiter.
  destruct (py_iter tdeclared) as [tparams|e|],
    (Store.iter declared σ2) as [params|e'|]; simpl in Hiter; try done.
  2: { subst e'. exists (Raise e), σ2. split; [done|]. split; [by etrans|done]. }
  2: { exists OutOfModel, σ2. split; [done|]. split; [by etrans|done]. }
  rewrite bind_Ok, Store.run_bind_unfold.
  destruct (scan_params_sim σb lq sreq req params tparams Hblq Hargs Hiter
              σ2 ∅ Hσ2 Hc) as (r & σ3 & E3 & Hσ3 & H3).
  rewrite E3.
  destruct (scan_params req ∅ tparams) as [qp|e|], r as [[]|e'|];
    simpl in H3; try done.
  - exists (Ok (Store.VRef lq)), σ3. split; [done|]. split; [by etrans|].
    by apply collecting_denotes.
  - subst e'. exists (Raise e), σ3. split; [done|]. split; [by etrans|done].
  - exists OutOfModel, σ3. split; [done|]. split; [by etrans|done].
Qed.

Lemma message_sim (σ : Store.store) k s code :
  Store.sim returned_denotes σ (Store.message k s code)
    (Ok (Some (with_status (jsonify (PDict {[k := PStr s]})) code))).
Proof.
  unfold Store.message.
  change (Ok (Some (with_status (jsonify (PDict {[k := PStr s]})) code)))
    with (Ok (A := option response)
            (Some (with_status (jsonify (PDict {[k := PStr s]})) code))
          ≫= λ x, Ok x).
  apply Store.sim_alloc. intros l σ' Hσ Hl. simpl.
  apply Store.sim_ret. split; [done|]. simpl.
  eapply Store.denotes_dict; [done|]. intros j.
  destruct (decide (j = k)) as [->|Hne].
  - rewrite !lookup_singleton_eq. by exists O.
  - by rewrite !lookup_singleton_ne.
Qed.

Lemma dict_merge_sim (σ : Store.store) a ta b tb :
  Store.denotes σ a ta → Store.denotes σ b tb →
  Store.sim Store.denotes σ (Store.dict_merge a b) (dict_merge ta tb).
Proof.
  intros Ha Hb. unfold Store.sim, Store.dict_merge, dict_merge.
  rewrite Store.run_read_bind.
  destruct (is_dict ta) eqn:Eta.
  2: { rewrite (Store.as_mapping_other _ _ _ Ha Eta).
       exists (Raise TypeError), σ. by destruct ta. }
  destruct ta as [| | | | | |da]; try done.
  destruct (Store.as_mapping_dict _ _ _ Ha) as (sa & -> & Hfa).
  rewrite Store.run_read_bind.
  destruct (is_dict tb) eqn:Etb.
  2: { rewrite (Store.as_mapping_other _ _ _ Hb Etb).
       exists (Raise TypeError), σ. by destruct tb. }
  destruct tb as [| | | | | |db]; try done.
  destruct (Store.as_mapping_dict _ _ _ Hb) as (sb & -> & Hfb).
  unfold Store.alloc. eexists _, _. split; [done|].
  pose proof (Store.fresh_unused σ) as Hl.
  assert (Hσ : σ ⊆ <[fresh (dom σ) := Store.ODict (sb ∪ sa)]> σ)
    by by apply insert_subseteq.
  split; [done|]. simpl.
  eapply Store.denotes_dict; [apply lookup_insert_eq|].
  eapply Store.fields_weaken; [exact Hσ|]. by apply Store.fields_union.
Qed.

Lemma dict_with_sim (σ : Store.store) a ta k v tv :
  Store.denotes σ a ta → Store.denotes σ v tv →
  Store.sim Store.denotes σ (Store.dict_with a k v) (dict_with ta k tv).
Proof.
  intros Ha Hv. unfold Store.sim, Store.dict_with, dict_with.
  rewrite Store.run_read_bind.
  destruct (is_dict ta) eqn:Eta.
  2: { rewrite (Store.as_mapping_other _ _ _ Ha Eta).
       exists (Raise TypeError), σ. by destruct ta. }
  destruct ta as [| | | | | |da]; try done.
  destruct (Store.as_mapping_dict _ _ _ Ha) as (sa & -> & Hfa).
  unfold Store.alloc. eexists _, _. split; [done|].
  pose proof (Store.fresh_unused σ) as Hl.
  assert (Hσ : σ ⊆ <[fresh (dom σ) := Store.ODict (<[k := v]> sa)]> σ)
    by by apply insert_subseteq.
  split; [done|]. simpl.
  eapply Store.denotes_dict; [apply lookup_insert_eq|].
  eapply Store.fields_weaken; [exact Hσ|]. by apply Store.fields_insert.
Qed.

Lemma request_denotes_weaken (σ σ' : Store.store) sreq req :
  σ ⊆ σ' → request_denotes σ sreq req → request_denotes σ' sreq req.
Proof.
  intros Hσ (Ha & Hc & Hj). split; [done|]. split; [done|].
  destruct (Store.json sreq), (json req); try done.
  by eapply Store.denotes_weaken.
Qed.

Lemma merge_body_sim (σ : Store.store) example tex sreq req :
  Store.denotes σ example tex →
  request_denotes σ sreq req →
  Store.sim returned_denotes σ (Store.merge_body example sreq)
    (merge_body tex req).
Proof.
  intros Hex (_ & _ & Hj). unfold Store.merge_body, merge_body.
  unfold Store.request_json, request_json.
  destruct (Store.json sreq) as [data|e], (json req) as [tdata|e'];
    try done.
  2: { subst e'. by exists (Raise e), σ. }
  rewrite bind_Ok.
  change (mret data ≫= ?f) with (f data).
  pose proof (Store.is_dict_matches _ _ _ Hj) as Hd.
  pose proof (Store.is_dict_matches _ _ _ Hex) as He.
  destruct (Store.is_dict data σ) as [bd| |] eqn:Ed; simpl in Hd; try done.
  destruct (Store.is_dict example σ) as [be| |] eqn:Ee; simpl in He; try done.
  subst bd be.
  eapply Store.sim_read_left; [exact Ed|].
  eapply Store.sim_read_left; [exact Ee|].
  destruct (is_dict tdata && is_dict tex); [|by apply Store.sim_ret].
  eapply Store.sim_bind; [by apply dict_merge_sim|].
  intros σ' merged tmerged Hσ Hm. by apply Store.sim_ret.
Qed.

Lemma dict_nonempty_denotes (σ : Store.store) v qp :
  Store.denotes σ v (PDict qp) →
  Store.dict_nonempty v σ = Ok (bool_decide (qp ≠ ∅)).
Proof.
  intros Hv. destruct (Store.as_mapping_dict _ _ _ Hv) as (qd & Hqd & Hf).
  unfold Store.dict_nonempty, mbind, Store.reader_bind. rewrite Hqd.
  unfold mret, Store.reader_ret. f_equal. apply bool_decide_ext.
  by rewrite (Store.fields_empty _ _ _ Hf).
Qed.

(** Run on a store in which the operation, the example and the parsed body
    stand for trees, the handler only adds objects to the store, and what it
    returns is what the handler on the trees returns: the same status, a
    body that stands for the same tree, or the same exception. *)
Lemma handler_sim (σ : Store.store) operation top example tex method
    sreq req :
  Store.denotes σ operation top →
  Store.denotes σ example tex →
  request_denotes σ sreq req →
  Store.sim response_denotes σ
    (Store.create_handler operation example method sreq)
    (create_handler top tex method req).
Proof.
  intros Hop Hex Hreq.
  unfold Store.create_handler, Store.handler, create_handler, handler.
  eapply Store.sim_bind.
  { apply collect_query_params_sim; [done | apply Hreq]. }
  intros σ1 qv qp Hσ1 Hqv. cbv beta in Hqv.
  apply Store.denotes_weaken with (σ' := σ1) in Hex; [|done].
  apply request_denotes_weaken with (σ' := σ1) in Hreq; [|done].
  eapply Store.sim_bind with (R := returned_denotes).
  - destruct (String.eqb (upper method) "POST").
    { apply Store.sim_try_except.
      - destruct Hreq as (Ha & Hc & Hj). rewrite Hc.
        case_bool_decide; [|apply message_sim].
        by apply merge_body_sim.
      - intros σ2 Hσ2. apply message_sim. }
    destruct (String.eqb (upper method) "GET").
    { eapply Store.sim_read_left; [exact (dict_nonempty_denotes _ _ _ Hqv)|].
      case_bool_decide.
      - eapply Store.sim_bind; [by apply dict_with_sim|].
        intros σ2 merged tmerged Hσ2 Hm. by apply Store.sim_ret.
      - by apply Store.sim_ret. }
    destruct (String.eqb (upper method) "PUT").
    { apply Store.sim_try_except; [by apply merge_body_sim|].
      intros σ2 Hσ2. apply message_sim. }
    destruct (String.eqb (upper method) "DELETE"); apply message_sim.
  - intros σ2 [a|] [b|] Hσ2 Hr; try done; apply Store.sim_ret; [done|].
    split; [done|]. by eapply Store.denotes_weaken.
Qed.

(** A reference to a dict of the store, and what the dict holds. *)
Definition holds_dict (σ : Store.store) (v : Store.val)
    (d : gmap string Store.val) : Prop :=
  ∃ l, v = Store.VRef l ∧ σ !! l = Some (Store.ODict d).

Lemma holds_dict_weaken (σ σ' : Store.store) v d :
  σ ⊆ σ' → holds_dict σ v d → holds_dict σ' v d.
Proof.
  intros Hσ (l & -> & Hl). exists l. split; [done|]. by eapply lookup_weaken.
Qed.

Lemma holds_dict_is_dict (σ : Store.store) v d :
  holds_dict σ v d → Store.is_dict v σ = Ok true.
Proof.
  intros (l & -> & Hl).
  unfold Store.is_dict, mbind, Store.reader_bind, Store.deref. by rewrite Hl.
Qed.

Lemma holds_dict_as_mapping (σ : Store.store) v d :
  holds_dict σ v d → Store.as_mapping v σ = Ok d.
Proof.
  intros (l & -> & Hl).
  unfold Store.as_mapping, mbind, Store.reader_bind, Store.deref. by rewrite Hl.
Qed.

(** The merge of the body into the example, run: the merged dict is a new
    object, and the store is the store from before with that object. *)
Lemma merge_body_run (σ : Store.store) example sreq data d e :
  Store.json sreq = inl data →
  holds_dict σ data d → holds_dict σ example e →
  Store.merge_body example sreq σ =
  (Ok (Some (Store.jsonify (Store.VRef (fresh (dom σ))))),
   <[fresh (dom σ) := Store.ODict (d ∪ e)]> σ).
Proof.
  intros Hj Hd He. unfold Store.merge_body, Store.request_json. rewrite Hj.
  rewrite Store.run_bind_unfold. cbn [mret Store.run_ret].
  rewrite Store.run_read_bind, (holds_dict_is_dict _ _ _ Hd).
  rewrite Store.run_read_bind, (holds_dict_is_dict _ _ _ He).
  cbn [andb]. rewrite Store.run_bind_unfold. unfold Store.dict_merge.
  rewrite Store.run_read_bind, (holds_dict_as_mapping _ _ _ He).
  rewrite Store.run_read_bind, (holds_dict_as_mapping _ _ _ Hd).
  reflexivity.
Qed.

(** [{**example, "query_params": query_params}], run. *)
Lemma dict_with_run (σ : Store.store) example e k v :
  holds_dict σ example e →
  Store.dict_with example k v σ =
  (Ok (Store.VRef (fresh (dom σ))),
   <[fresh (dom σ) := Store.ODict (<[k := v]> e)]> σ).
Proof.
  intros He. unfold Store.dict_with.
  by rewrite Store.run_read_bind, (holds_dict_as_mapping _ _ _ He).
Qed.

Lemma handler_merge_run (σ σ' : Store.store) operation example method sreq
    resp data d e :
  Store.create_handler operation example method sreq σ = (Ok resp, σ') →
  upper method = "PUT" ∨
  upper method = "POST" ∧ Store.content_type sreq = Some "application/json" →
  Store.json sreq = inl data →
  holds_dict σ data d → holds_dict σ example e →
  ∃ l, resp = Store.Response (Store.VRef l) 200 ∧
       σ !! l = None ∧
       σ' !! l = Some (Store.ODict (d ∪ e)) ∧
       holds_dict σ' example e ∧ holds_dict σ' data d.
Proof.
  intros Hrun Hm Hj Hd He.
  unfold Store.create_handler, Store.handler in Hrun.
  rewrite Store.run_bind_unfold in Hrun.
  destruct (Store.collect_query_params operation sreq σ) as [rq σ1] eqn:Eq.
  destruct (Store.keeps_collect_query_params σ operation sreq σ rq σ1)
    as [Hσ1 _]; [done | done |].
  destruct rq as [qv|e'|]; [|discriminate..].
  rewrite Store.run_bind_unfold in Hrun.
  apply (holds_dict_weaken _ _ _ _ Hσ1) in Hd, He.
  match type of Hrun with
  | context [let (_, _) := ?m in _] => set (r_out := m) in Hrun
  end.
  assert (Hout : r_out = (Ok (Some (Store.jsonify (Store.VRef (fresh (dom σ1))))),
                          <[fresh (dom σ1) := Store.ODict (d ∪ e)]> σ1)).
  { subst r_out. destruct Hm as [Hm|[Hm Hct]]; rewrite Hm.
    - change (String.eqb "PUT" "POST") with false.
      change (String.eqb "PUT" "GET") with false.
      change (String.eqb "PUT" "PUT") with true. cbv iota.
      unfold Store.try_except.
      by rewrite (merge_body_run _ _ _ _ _ _ Hj Hd He).
    - change (String.eqb "POST" "POST") with true. cbv iota.
      rewrite bool_decide_eq_true_2 by done.
      unfold Store.try_except.
      by rewrite (merge_body_run _ _ _ _ _ _ Hj Hd He). }
  rewrite Hout in Hrun. injection Hrun as <- <-.
  pose proof (Store.fresh_unused σ1) as Hl.
  exists (fresh (dom σ1)). split; [reflexivity|].
  split; [by eapply lookup_weaken_None|].
  split; [apply lookup_insert_eq|].
  split; eapply holds_dict_weaken; try eassumption; by apply insert_subseteq.
Qed.

Lemma handler_get_run (σ σ' : Store.store) operation example method sreq
    resp top e :
  Store.create_handler operation example method sreq σ = (Ok resp, σ') →
  upper method = "GET" →
  Store.denotes σ operation top → wf_operation top = true →
  query_names top ≠ [] →
  holds_dict σ example e →
  ∃ l lq, resp = Store.Response (Store.VRef l) 200 ∧
          σ !! l = None ∧ σ !! lq = None ∧
          σ' !! l =
            Some (Store.ODict (<["query_params" := Store.VRef lq]> e)) ∧
          holds_dict σ' example e ∧
          ∀ req, args req = Store.args sreq →
            Store.denotes σ' (Store.VRef lq)
              (PDict (query_map req (query_names top))).
Proof.
  intros Hrun Hm Hop Hwf Hnames He.
  unfold Store.create_handler, Store.handler in Hrun.
  rewrite Store.run_bind_unfold in Hrun.
  set (req0 := Request (Store.args sreq) None (inr UnsupportedMediaType)).
  destruct (collect_query_params_sim σ operation top sreq req0 Hop eq_refl)
    as (rq & σ1 & Eq & Hσ1 & Hmatch).
  rewrite (collect_query_params_wf _ _ Hwf) in Hmatch.
  destruct (Store.keeps_collect_query_params σ operation sreq σ rq σ1)
    as [_ Hnew]; [done | done |].
  rewrite Eq in Hrun.
  destruct rq as [qv|e'|]; [|discriminate..].
  destruct (Hnew qv eq_refl) as (lq & -> & Hlq).
  cbn [Store.matches] in Hmatch.
  rewrite Store.run_bind_unfold in Hrun.
  apply (holds_dict_weaken _ _ _ _ Hσ1) in He.
  match type of Hrun with
  | context [let (_, _) := ?m in _] => set (r_out := m) in Hrun
  end.
  assert (Hout : r_out =
    (Ok (Some (Store.jsonify (Store.VRef (fresh (dom σ1))))),
     <[fresh (dom σ1) :=
         Store.ODict (<["query_params" := Store.VRef lq]> e)]> σ1)).
  { subst r_out. rewrite Hm.
    change (String.eqb "GET" "POST") with false.
    change (String.eqb "GET" "GET") with true. cbv iota.
    rewrite Store.run_read_bind, (dict_nonempty_denotes _ _ _ Hmatch).
    rewrite bool_decide_eq_true_2 by by rewrite query_map_empty.
    rewrite Store.run_bind_unfold.
    by rewrite (dict_with_run _ _ _ _ _ He). }
  rewrite Hout in Hrun. injection Hrun as <- <-.
  pose proof (Store.fresh_unused σ1) as Hl.
  exists (fresh (dom σ1)), lq. split; [reflexivity|].
  split; [by eapply lookup_weaken_None|]. split; [done|].
  split; [apply lookup_insert_eq|].
  split; [eapply holds_dict_weaken; [|exact He]; by apply insert_subseteq|].
  intros req Hargs.
  eapply Store.denotes_weaken; [by apply insert_subseteq|].
  replace (query_map req (query_names top))
    with (query_map req0 (query_names top)); [done|].
  unfold query_map. by rewrite Hargs.
Qed.

(** C9. A call of a handler changes no object that was in the store before
    it: the operation and the example it captured (as every other value)
    stand for the same trees after the call as before it; the body it hands
    to [jsonify] is the example as it is or an object made during the call;
    a merged reply is an object made during the call, holding the merge,
    while the example and the body of the request hold what they held: for
    PUT and for POST with the JSON content type, on a body and an example
    that are dicts, the new dict holds the fields of the body over those of
    the example; for GET on an operation with a declared query parameter,
    the new dict holds the fields of the example with ["query_params"] set
    to a second new dict, that of the query values; and resolving the
    example of the operation before and after the call yields values that
    stand for the same tree. *)
Theorem handler_leaves_captured_alone (σ σ' : Store.store) operation example
    method sreq r :
  Store.create_handler operation example method sreq σ = (r, σ') →
  σ ⊆ σ' ∧
  (∀ v depth t,
     Store.reify depth σ v = Some t → Store.reify depth σ' v = Some t) ∧
  (∀ resp, r = Ok resp →
     Store.body resp = example ∨
     ∃ l, Store.body resp = Store.VRef l ∧ σ !! l = None) ∧
  (∀ resp data d e, r = Ok resp →
     upper method = "PUT" ∨
     upper method = "POST" ∧
     Store.content_type sreq = Some "application/json" →
     Store.json sreq = inl data →
     holds_dict σ data d → holds_dict σ example e →
     ∃ l, resp = Store.Response (Store.VRef l) 200 ∧
          σ !! l = None ∧
          σ' !! l = Some (Store.ODict (d ∪ e)) ∧
          holds_dict σ' example e ∧ holds_dict σ' data d) ∧
  (∀ resp top e, r = Ok resp →
     upper method = "GET" →
     Store.denotes σ operation top → wf_operation top = true →
     query_names top ≠ [] →
     holds_dict σ example e →
     ∃ l lq, resp = Store.Response (Store.VRef l) 200 ∧
             σ !! l = None ∧ σ !! lq = None ∧
             σ' !! l =
               Some (Store.ODict (<["query_params" := Store.VRef lq]> e)) ∧
             holds_dict σ' example e ∧
             ∀ req, args req = Store.args sreq →
               Store.denotes σ' (Store.VRef lq)
                 (PDict (query_map req (query_names top)))) ∧
  (∀ top e, Store.denotes σ operation top → resolve_example top = Ok e →
     ∃ v1 σ1 v2 σ2,
       Store.resolve_example operation σ = (Ok v1, σ1) ∧
       Store.denotes σ1 v1 e ∧
       Store.resolve_example operation σ' = (Ok v2, σ2) ∧
       Store.denotes σ2 v2 e).
Proof.
  intros Hrun.
  destruct (Store.keeps_handler σ operation example method sreq σ r σ')
    as [Hσ Hbody]; [done | exact Hrun |].
  split; [exact Hσ|]. split.
  { intros v depth t. by apply Store.reify_weaken. }
  split; [exact Hbody|]. split.
  { intros resp data d e ->.
    exact (handler_merge_run σ σ' operation example method sreq resp data d e
             Hrun). }
  split.
  { intros resp top e ->.
    exact (handler_get_run σ σ' operation example method sreq resp top e
             Hrun). }
  intros top e Hop He.
  destruct (resolve_example_sim σ operation top Hop)
    as (r1 & σ1 & E1 & _ & H1).
  destruct (resolve_example_sim σ' operation top)
    as (r2 & σ2 & E2 & _ & H2); [by eapply Store.denotes_weaken|].
  rewrite He in H1, H2.
  destruct r1 as [v1| |], r2 as [v2| |]; try done.
  by exists v1, σ1, v2, σ2.
Qed.

Definition test_store : Store.store :=
  <[1%positive := Store.ODict {["parameters" := Store.VRef 2%positive]}]>
  (<[2%positive := Store.OList [Store.VRef 3%positive]]>
  (<[3%positive := Store.ODict {["name" := Store.VStr "param1";
                                 "in" := Store.VStr "query"]}]>
  (<[4%positive := Store.ODict {["message" := Store.VStr "test"]}]> ∅))).

Definition test_store_request : Store.request :=
  Store.Request [("param1", "value1")] None (inr UnsupportedMediaType).

(** The store of a PUT request: the parsed body is the dict at 5. *)
Definition test_store_put : Store.store :=
  <[5%positive := Store.ODict {["id" := Store.VInt 7]}]> test_store.

Definition test_store_put_request : Store.request :=
  Store.Request [] (Some "application/json") (inl (Store.VRef 5%positive)).

Lemma handler_leaves_captured_alone_witness :
  let out :=
    Store.create_handler (Store.VRef 1%positive) (Store.VRef 4%positive)
      "put" test_store_put_request test_store_put in
  ∃ l, out.1 = Ok (Store.Response (Store.VRef l) 200) ∧
       test_store_put !! l = None ∧
       out.2 !! l =
         Some (Store.ODict ({["id" := Store.VInt 7]} ∪
                            {["message" := Store.VStr "test"]})) ∧
       holds_dict out.2 (Store.VRef 4%positive)
         {["message" := Store.VStr "test"]} ∧
       test_store_put ⊆ out.2.
Proof.
  intros out.
  set (resp := match out.1 with
               | Ok resp => resp
               | _ => Store.Response Store.VNone 0
               end).
  assert (Hr : out.1 = Ok resp) by (vm_compute; reflexivity).
  assert (Hrun : out = (Ok resp, out.2)).
  { rewrite <- Hr. apply surjective_pairing. }
  assert (Hd : holds_dict test_store_put (Store.VRef 5%positive)
                 {["id" := Store.VInt 7]}).
  { exists 5%positive. split; [reflexivity | vm_compute; reflexivity]. }
  assert (He : holds_dict test_store_put (Store.VRef 4%positive)
                 {["message" := Store.VStr "test"]}).
  { exists 4%positive. split; [reflexivity | vm_compute; reflexivity]. }
  assert (Hm : upper "put" = "PUT") by reflexivity.
  destruct (handler_leaves_captured_alone test_store_put out.2
              (Store.VRef 1%positive) (Store.VRef 4%positive) "put"
              test_store_put_request (Ok resp) Hrun)
    as (Hσ & _ & _ & Hmerge & _).
  destruct (Hmerge resp (Store.VRef 5%positive) _ _ eq_refl
              (or_introl Hm) eq_refl Hd He)
    as (l & Hresp & Hl & Hl' & He' & _).
  exists l. rewrite Hr, Hresp. split; [reflexivity|].
  split; [exact Hl|]. split; [exact Hl'|]. split; [exact He' | exact Hσ].
Defined.

(** * Further properties of the code *)

(** ** The handler: what every method does *)

(** The loop over the parameters reads nothing of the request but the
    query string. *)
Lemma scan_params_args req req' params : ∀ qp,
  args req = args req' → scan_params req qp params = scan_params req' qp params.
Proof.
  induction params as [|param rest IH]; intros qp Hargs; [done|].
  cbn [scan_params]. unfold scan_param. rewrite Hargs.
  destruct (py_get param "in" PNone ≫= _) as [qp'| |]; [|done..].
  rewrite !bind_Ok. by apply IH.
Qed.

Lemma collect_query_params_args operation req req' :
  args req = args req' →
  collect_query_params operation req = collect_query_params operation req'.
Proof.
  intros Hargs. unfold collect_query_params.
  destruct (py_get operation "parameters" (PList [])) as [declared| |];
    [|done..].
  rewrite !bind_Ok. destruct (py_iter declared) as [params| |]; [|done..].
  rewrite !bind_Ok. by apply scan_params_args.
Qed.

(** A [try] block around the merge always ends in a reply or falls
    through: 200 on a merge, 400 when reading the body fails. *)
Lemma merge_body_caught example req :
  ∃ returned, try_except (merge_body example req) invalid_body = Ok returned ∧
    match returned with
    | Some r => status r = 200 ∨ status r = 400
    | None => True
    end.
Proof.
  unfold merge_body, request_json.
  destruct (json req) as [data|e]; [|eexists; split; [reflexivity | by right]].
  rewrite bind_Ok.
  destruct (is_dict data && is_dict example) eqn:E; [|by exists None].
  apply andb_prop in E as [Hd He].
  destruct data; try done. destruct example; try done.
  eexists. split; [reflexivity | by left].
Qed.

(** X1. Whatever the operation, the example and the request are, a reply
    of a handler carries a status that its method fixes: 200 for GET; 200,
    400 or 415 for POST; 200 or 400 for PUT; 204 for DELETE; 405 for every
    other method of ASCII characters. *)
Theorem handler_status_by_method operation example method req r :
  create_handler operation example method req = Ok r →
  (upper method = "GET" → status r = 200) ∧
  (upper method = "POST" → status r = 200 ∨ status r = 400 ∨ status r = 415) ∧
  (upper method = "PUT" → status r = 200 ∨ status r = 400) ∧
  (upper method = "DELETE" → status r = 204) ∧
  (is_ascii method = true →
   upper method ≠ "GET" → upper method ≠ "POST" → upper method ≠ "PUT" →
   upper method ≠ "DELETE" → status r = 405).
Proof.
  intros Hr. destruct (handler_Ok_inv _ _ _ _ _ Hr) as [qp Hqp].
  unfold create_handler, handler in Hr. rewrite Hqp, bind_Ok in Hr.
  destruct (merge_body_caught example req) as (caught & Hcaught & Hstatus).
  repeat split.
  - intros Hm. rewrite Hm in Hr. revert Hr. eval_method.
    case_bool_decide.
    + destruct (dict_with example "query_params" (PDict qp)); [|done..].
      by intros [= <-].
    + by intros [= <-].
  - intros Hm. rewrite Hm in Hr. revert Hr. eval_method.
    case_bool_decide.
    + rewrite Hcaught, bind_Ok. destruct caught as [r'|].
      * intros [= <-]. destruct Hstatus; auto.
      * intros [= <-]. by left.
    + intros [= <-]. by right; right.
  - intros Hm. rewrite Hm in Hr. revert Hr. eval_method.
    rewrite Hcaught, bind_Ok. destruct caught as [r'|].
    + by intros [= <-].
    + intros [= <-]. by left.
  - intros Hm. rewrite Hm in Hr. revert Hr. eval_method. by intros [= <-].
  - intros _ Hget Hpost Hput Hdel.
    apply String.eqb_neq in Hget, Hpost, Hput, Hdel.
    rewrite Hget, Hpost, Hput, Hdel in Hr. by injection Hr as <-.
Qed.

Lemma handler_status_by_method_witness :
  let req := flask_request (Wire [] (Some "text/plain") (Some (PDict ∅))) in
  create_handler (PDict ∅) (PDict {["message" := PStr "test"]}) "post" req =
    Ok (Response (PDict {["error" := PStr "Unsupported Media Type"]}) 415) ∧
  (415 = 200 ∨ 415 = 400 ∨ 415 = 415).
Proof.
  intros req. split; [reflexivity|].
  apply (handler_status_by_method (PDict ∅)
           (PDict {["message" := PStr "test"]}) "post" req
           (Response (PDict {["error" := PStr "Unsupported Media Type"]}) 415));
    reflexivity.
Defined.

(** X2. On an operation that follows the data model, a handler for any
    method but GET answers every request: it never raises, whatever the
    example, the content type and the body are. *)
Theorem non_get_handler_answers operation example method req :
  wf_operation operation = true →
  upper method ≠ "GET" →
  ∃ r, create_handler operation example method req = Ok r.
Proof.
  intros Hwf Hget. enter_handler Hwf.
  apply String.eqb_neq in Hget. rewrite Hget.
  destruct (merge_body_caught example req) as (caught & Hcaught & _).
  destruct (String.eqb (upper method) "POST").
  { case_bool_decide; [|by eexists].
    rewrite Hcaught, bind_Ok. destruct caught; by eexists. }
  destruct (String.eqb (upper method) "PUT").
  { rewrite Hcaught, bind_Ok. destruct caught; by eexists. }
  destruct (String.eqb (upper method) "DELETE"); by eexists.
Qed.

Lemma non_get_handler_answers_witness :
  wf_operation items_operation = true ∧
  upper "put" ≠ "GET" ∧
  ∃ r, create_handler items_operation (PList []) "put"
         (Request [] None (inr UnsupportedMediaType)) = Ok r.
Proof.
  split; [reflexivity|]. split; [discriminate|].
  apply non_get_handler_answers; [reflexivity | discriminate].
Defined.

Lemma scan_params_app req l1 l2 : ∀ qp,
  scan_params req qp (l1 ++ l2) =
  scan_params req qp l1 ≫= λ qp', scan_params req qp' l2.
Proof.
  induction l1 as [|param rest IH]; intros qp; [done|].
  cbn [List.app scan_params].
  destruct (scan_param req qp param) as [qp1| |]; [|done..].
  rewrite !bind_Ok. apply IH.
Qed.

Definition is_scalar (v : pyval) : bool :=
  match v with
  | PNone | PBool _ | PInt _ | PFloat _ => true
  | _ => false
  end.

(** X3. Malformed parameters fail every request, for every method, before
    the method is looked at: a parameter with location ["query"] and no
    ["name"] (after parameters that are in order) raises [KeyError], and a
    ["parameters"] entry that is [None] or a number raises [TypeError];
    neither is caught by the [try] blocks of POST and PUT. *)
Theorem malformed_parameters_raise (op : gmap string pyval) example method
    req :
  (∀ before d after,
     op !! "parameters" = Some (PList (before ++ PDict d :: after)) →
     forallb wf_param before = true →
     py_eq_str (default PNone (d !! "in")) "query" = true →
     d !! "name" = None →
     create_handler (PDict op) example method req = Raise KeyError) ∧
  (∀ v, op !! "parameters" = Some v → is_scalar v = true →
     create_handler (PDict op) example method req = Raise TypeError).
Proof.
  split.
  - intros before d after Hps Hbefore Hin Hname.
    unfold create_handler, handler, collect_query_params.
    rewrite (py_get_Some _ _ _ _ Hps), bind_Ok. cbn [py_iter].
    rewrite bind_Ok, scan_params_app, (scan_params_wf _ _ _ Hbefore), bind_Ok.
    cbn [scan_params]. unfold scan_param, py_get. rewrite bind_Ok, Hin.
    unfold py_getitem. by rewrite Hname.
  - intros v Hv Hscalar.
    unfold create_handler, handler, collect_query_params.
    rewrite (py_get_Some _ _ _ _ Hv), bind_Ok. by destruct v.
Qed.

Lemma malformed_parameters_raise_witness :
  let op : gmap string pyval :=
    {["parameters" := PList [PDict {["name" := PStr "page"; "in" := PStr "query"]};
                             PDict {["in" := PStr "query"]}]]} in
  create_handler (PDict op) (PDict ∅) "delete"
    (Request [] None (inr UnsupportedMediaType)) = Raise KeyError.
Proof.
  intros op.
  apply (malformed_parameters_raise op (PDict ∅) "delete"
           (Request [] None (inr UnsupportedMediaType)))
    with (before := [PDict {["name" := PStr "page"; "in" := PStr "query"]}])
         (d := {["in" := PStr "query"]}) (after := []); reflexivity.
Defined.

(** X4. A GET handler reads neither the content type nor the body of the
    request: two requests with the same query string get the same outcome,
    whatever the operation and the example are. *)
Theorem get_handler_ignores_body operation example method a ct j ct' j' :
  upper method = "GET" →
  create_handler operation example method (Request a ct j) =
  create_handler operation example method (Request a ct' j').
Proof.
  intros Hm. unfold create_handler, handler.
  rewrite (collect_query_params_args _ (Request a ct j) (Request a ct' j'))
    by done.
  destruct (collect_query_params operation (Request a ct' j')); [|done..].
  rewrite !bind_Ok, Hm. by eval_method.
Qed.

Lemma get_handler_ignores_body_witness :
  upper "get" = "GET" ∧
  create_handler items_operation (PDict ∅) "get"
    (Request [("param1", "x")] (Some "application/json") (inl (PInt 1))) =
  create_handler items_operation (PDict ∅) "get"
    (Request [("param1", "x")] None (inr UnsupportedMediaType)).
Proof. split; [reflexivity|]. by apply get_handler_ignores_body. Defined.

(** X5. Of an operation that follows the data model a handler uses nothing
    but the set of the names of its query parameters: operations that
    declare the same names, in any order, any number of times, with any
    other parameters and fields, give the same outcome on every request. *)
Theorem handler_uses_query_names_only operation operation' example method
    req :
  wf_operation operation = true →
  wf_operation operation' = true →
  (∀ n, n ∈ query_names operation ↔ n ∈ query_names operation') →
  create_handler operation example method req =
  create_handler operation' example method req.
Proof.
  intros Hwf Hwf' Hnames. unfold create_handler, handler.
  rewrite (collect_query_params_wf _ _ Hwf), (collect_query_params_wf _ _ Hwf').
  replace (query_map req (query_names operation'))
    with (query_map req (query_names operation)); [done|].
  apply map_eq. intros n. rewrite !lookup_query_map.
  destruct (decide (n ∈ query_names operation)) as [Hin|Hnin].
  - by rewrite decide_True by by apply Hnames.
  - by rewrite decide_False by by rewrite <- Hnames.
Qed.

Lemma handler_uses_query_names_only_witness :
  let operation' :=
    PDict {["summary" := PStr "List";
            "parameters" :=
              PList [PDict {["name" := PStr "id"; "in" := PStr "path"]};
                     PDict {["name" := PStr "param1"; "in" := PStr "query"]};
                     PDict {["name" := PStr "param1"; "in" := PStr "query"]}]]} in
  wf_operation items_operation = true ∧
  wf_operation operation' = true ∧
  create_handler items_operation (PDict ∅) "GET" items_request =
  create_handler operation' (PDict ∅) "GET" items_request.
Proof.
  intros operation'. split; [reflexivity|]. split; [reflexivity|].
  apply handler_uses_query_names_only; [reflexivity | reflexivity |].
  intros n. change (query_names items_operation) with ["param1"].
  change (query_names operation') with ["param1"; "param1"].
  rewrite !elem_of_cons. tauto.
Defined.

(** X6. For every method but GET, on operations that follow the data
    model, the outcome depends on neither the operation nor the query
    string: declared parameters and query values never reach a POST, PUT
    or DELETE reply. *)
Theorem non_get_handler_ignores_query operation operation' example method
    a a' ct j :
  wf_operation operation = true →
  wf_operation operation' = true →
  upper method ≠ "GET" →
  create_handler operation example method (Request a ct j) =
  create_handler operation' example method (Request a' ct j).
Proof.
  intros Hwf Hwf' Hget. apply String.eqb_neq in Hget.
  unfold create_handler, handler.
  rewrite (collect_query_params_wf _ _ Hwf), (collect_query_params_wf _ _ Hwf').
  by rewrite !bind_Ok, Hget.
Qed.

Lemma non_get_handler_ignores_query_witness :
  wf_operation items_operation = true ∧
  wf_operation (PDict ∅) = true ∧
  upper "post" ≠ "GET" ∧
  create_handler items_operation (PDict ∅) "post"
    (Request [("param1", "x")] (Some "application/json") (inl (PDict ∅))) =
  create_handler (PDict ∅) (PDict ∅) "post"
    (Request [] (Some "application/json") (inl (PDict ∅))).
Proof.
  split; [reflexivity|]. split; [reflexivity|]. split; [discriminate|].
  apply non_get_handler_ignores_query; [reflexivity | reflexivity | discriminate].
Defined.

(** X7. The merge of PUT (and of POST with the JSON content type) on an
    object body [d] and an object example [e]: the reply has exactly the
    keys of the two, keeps every value of the example that the body does
    not name, is the example itself when the body is [{}] and the body
    itself when the example is [{}]. *)
Theorem merge_reply_keys operation example method req d e :
  wf_operation operation = true →
  upper method = "PUT" ∨
    (upper method = "POST" ∧ content_type req = Some "application/json") →
  json req = inl (PDict d) →
  example = PDict e →
  ∃ merged,
    create_handler operation example method req =
      Ok (Response (PDict merged) 200) ∧
    dom merged = dom d ∪ dom e ∧
    (∀ k v, d !! k = None → e !! k = Some v → merged !! k = Some v) ∧
    (d = ∅ → merged = e) ∧
    (e = ∅ → merged = d).
Proof.
  intros Hwf Hm Hj ->. exists (d ∪ e). split.
  - enter_handler Hwf. destruct Hm as [Hm|[Hm Hct]]; rewrite Hm; eval_method.
    + by rewrite (merge_body_dicts _ _ _ Hj).
    + rewrite bool_decide_eq_true_2 by done.
      by rewrite (merge_body_dicts _ _ _ Hj).
  - split; [apply dom_union_L|]. split.
    { intros k v Hd He. by rewrite lookup_merge, Hd. }
    split; intros ->; [apply (left_id_L ∅ (∪)) | apply (right_id_L ∅ (∪))].
Qed.

Lemma merge_reply_keys_witness :
  let e : gmap string pyval := {["message" := PStr "test"; "id" := PInt 1]} in
  let d : gmap string pyval := {["id" := PInt 7; "tag" := PStr "new"]} in
  let req := flask_request (Wire [] (Some "application/json") (Some (PDict d))) in
  wf_operation (PDict ∅) = true ∧
  upper "put" = "PUT" ∧
  json req = inl (PDict d) ∧
  ∃ merged,
    create_handler (PDict ∅) (PDict e) "put" req =
      Ok (Response (PDict merged) 200) ∧
    dom merged = dom d ∪ dom e ∧
    merged !! "message" = Some (PStr "test").
Proof.
  intros e d req. split; [reflexivity|]. split; [reflexivity|].
  split; [reflexivity|].
  destruct (merge_reply_keys (PDict ∅) (PDict e) "put" req d e)
    as (merged & Hr & Hdom & Hkeep & _);
    [reflexivity | by left | reflexivity | reflexivity |].
  exists merged. split; [exact Hr|]. split; [exact Hdom|].
  apply Hkeep; reflexivity.
Defined.

(** ** Path conversion *)

Lemma str_replace_app old new (s t : string) :
  str_replace old new (s +:+ t) =
  str_replace old new s +:+ str_replace old new t.
Proof. induction s as [|c r IH]; simpl; [done | by rewrite IH]. Qed.

Lemma chars_inj (s t : string) : chars s = chars t → s = t.
Proof.
  revert t. induction s as [|c r IH]; intros [|c' r']; simpl; try done.
  intros [= -> H]. f_equal. by apply IH.
Qed.

(** X8. Conversion works segment by segment: the pattern of a
    concatenation is the concatenation of the patterns, so a placeholder
    [{name}] becomes [<name>] wherever it stands, and the text around it is
    converted on its own. *)
Theorem convert_path_app (s t : string) :
  convert_path (s +:+ t) = convert_path s +:+ convert_path t.
Proof. unfold convert_path. by rewrite !str_replace_app. Qed.

(** X9. Conversion is idempotent and leaves a template without braces as it
    is; hence it is not injective: a template with a brace and its own
    pattern are two different templates with the same pattern. *)
Theorem convert_path_idempotent (s : string) :
  convert_path (convert_path s) = convert_path s ∧
  ("{"%char ∉ chars s → "}"%char ∉ chars s → convert_path s = s) ∧
  ("{"%char ∈ chars s ∨ "}"%char ∈ chars s → convert_path s ≠ s).
Proof.
  assert (Hmap : ∀ t, chars (convert_path t) = convert_char <$> chars t).
  { intros t. unfold convert_path.
    rewrite !chars_str_replace, <- list_fmap_compose.
    apply list_fmap_ext. intros _ c _. unfold convert_char; simpl.
    destruct (Ascii.eqb c "{") eqn:E1; [reflexivity|].
    destruct (Ascii.eqb c "}") eqn:E2; reflexivity. }
  assert (Hfix : ∀ t, "{"%char ∉ chars t → "}"%char ∉ chars t →
                      convert_path t = t).
  { intros t Hopen Hclose. apply chars_inj. rewrite Hmap.
    rewrite <- (list_fmap_id (chars t)) at 2.
    apply list_fmap_ext. intros _ c Hc%list_elem_of_lookup_2.
    unfold convert_char.
    destruct (Ascii.eqb c "{") eqn:E1.
    { apply Ascii.eqb_eq in E1. by subst c. }
    destruct (Ascii.eqb c "}") eqn:E2; [|done].
    apply Ascii.eqb_eq in E2. by subst c. }
  assert (Hnone : ∀ t b, (b = "{" ∨ b = "}")%char → b ∉ chars (convert_path t)).
  { intros t b Hb. rewrite Hmap. intros (c & Hc & _)%list_elem_of_fmap.
    unfold convert_char in Hc.
    destruct (Ascii.eqb c "{") eqn:E1; [destruct Hb; by subst b|].
    destruct (Ascii.eqb c "}") eqn:E2; [destruct Hb; by subst b|].
    subst c. destruct Hb as [->| ->]; discriminate. }
  split; [apply Hfix; apply Hnone; auto|].
  split; [apply Hfix|].
  intros Hbrace Heq. rewrite <- Heq in Hbrace.
  destruct Hbrace as [H|H]; by apply (Hnone s) in H; auto.
Qed.

Lemma convert_path_idempotent_witness :
  ("{"%char ∉ chars "/mocky/health") ∧ ("}"%char ∉ chars "/mocky/health") ∧
  convert_path "/mocky/health" = "/mocky/health".
Proof.
  assert (H1 : "{"%char ∉ chars "/mocky/health").
  { intros H. simpl in H. repeat (apply elem_of_cons in H as [H|H]; [done|]).
    by apply elem_of_nil in H. }
  assert (H2 : "}"%char ∉ chars "/mocky/health").
  { intros H. simpl in H. repeat (apply elem_of_cons in H as [H|H]; [done|]).
    by apply elem_of_nil in H. }
  split; [exact H1|]. split; [exact H2|].
  by apply convert_path_idempotent.
Defined.

(** ** The example of an operation *)

(** Resolution, once ["responses"] has been read. *)
Definition resolve_in (responses : pyval) : pyres pyval :=
  let default_resp := generate_default_response 200 "application/json" in
  has_200 ← py_contains "200" responses;
  has_content ←
    (if has_200 : bool then
       response_200 ← py_getitem responses "200";
       py_contains "content" response_200
     else Ok false);
  if has_content : bool then
    response_200 ← py_getitem responses "200";
    content ← py_getitem response_200 "content";
    media ← py_get content "application/json" (PDict ∅);
    py_get media "example" default_resp
  else Ok default_resp.

Lemma resolve_example_in (op : gmap string pyval) :
  resolve_example (PDict op) =
  resolve_in (default (PDict ∅) (op !! "responses")).
Proof. reflexivity. Qed.

Lemma resolve_in_200 (rs r : gmap string pyval) :
  rs !! "200" = Some (PDict r) →
  resolve_in (PDict rs) =
  match r !! "content" with
  | Some content =>
      media ← py_get content "application/json" (PDict ∅);
      py_get media "example" (generate_default_response 200 "application/json")
  | None => Ok (generate_default_response 200 "application/json")
  end.
Proof.
  intros E. unfold resolve_in.
  rewrite py_contains_dict, E, !bind_Ok, !(py_getitem_Some _ _ _ E), !bind_Ok.
  rewrite py_contains_dict.
  destruct (r !! "content") as [content|] eqn:Ec; rewrite !bind_Ok; [|done].
  by rewrite (py_getitem_Some _ _ _ Ec), bind_Ok.
Qed.

(** X10. Resolution reads one path only.  Fields of the operation other
    than ["responses"], responses for statuses other than ["200"], fields
    of that response other than ["content"], and media types other than
    ["application/json"] never change the example, whatever they hold and
    whether or not the rest is well formed. *)
Theorem resolve_example_reads_one_path (op : gmap string pyval) :
  (∀ k x, k ≠ "responses" →
     resolve_example (PDict (<[k := x]> op)) = resolve_example (PDict op)) ∧
  (∀ rs k x, op !! "responses" = Some (PDict rs) → k ≠ "200" →
     resolve_example (PDict (<["responses" := PDict (<[k := x]> rs)]> op)) =
     resolve_example (PDict op)) ∧
  (∀ rs r k x, op !! "responses" = Some (PDict rs) →
     rs !! "200" = Some (PDict r) → k ≠ "content" →
     resolve_example
       (PDict (<["responses" :=
                   PDict (<["200" := PDict (<[k := x]> r)]> rs)]> op)) =
     resolve_example (PDict op)) ∧
  (∀ rs r c k x, op !! "responses" = Some (PDict rs) →
     rs !! "200" = Some (PDict r) → r !! "content" = Some (PDict c) →
     k ≠ "application/json" →
     resolve_example
       (PDict (<["responses" :=
                   PDict (<["200" :=
                              PDict (<["content" := PDict (<[k := x]> c)]> r)]>
                            rs)]> op)) =
     resolve_example (PDict op)).
Proof.
  repeat split.
  - intros k x Hk. by rewrite !resolve_example_in, lookup_insert_ne.
  - intros rs k x Ers Hk. rewrite !resolve_example_in, lookup_insert_eq, Ers.
    cbn [default from_option id]. unfold resolve_in.
    rewrite !py_contains_dict, lookup_insert_ne by done.
    unfold py_getitem. by rewrite lookup_insert_ne by done.
  - intros rs r k x Ers E200 Hk.
    rewrite !resolve_example_in, lookup_insert_eq, Ers.
    cbn [default from_option id].
    rewrite (resolve_in_200 _ (<[k := x]> r)) by apply lookup_insert_eq.
    rewrite (resolve_in_200 _ r E200). by rewrite lookup_insert_ne.
  - intros rs r c k x Ers E200 Ec Hk.
    rewrite !resolve_example_in, lookup_insert_eq, Ers.
    cbn [default from_option id].
    rewrite (resolve_in_200 _ (<["content" := PDict (<[k := x]> c)]> r))
      by apply lookup_insert_eq.
    rewrite (resolve_in_200 _ r E200), lookup_insert_eq, Ec.
    unfold py_get at 2 4. by rewrite lookup_insert_ne.
Qed.

Lemma resolve_example_reads_one_path_witness :
  let created : pyval :=
    PDict {["content" := PDict {["application/json" :=
      PDict {["example" := PDict {["id" := PInt 7]}]}]}]} in
  let op : gmap string pyval := {["responses" := PDict ∅]} in
  op !! "responses" = Some (PDict ∅) ∧
  resolve_example
    (PDict (<["responses" := PDict (<["201" := created]> ∅)]> op)) =
  Ok (PDict {["status" := PInt 200; "message" := PStr "Default response"]}).
Proof.
  intros created op. split; [reflexivity|].
  destruct (resolve_example_reads_one_path op) as (_ & H & _).
  rewrite (H ∅ "201" created); [reflexivity | reflexivity | discriminate].
Defined.

(** X11. What a malformed response makes of resolution: a ["200"] entry
    that is [None] or a number raises [TypeError]; a ["content"] that is not
    a dict, and an ["application/json"] entry that is not a dict, raise
    [AttributeError] (so does the empty YAML entry, which loads as
    [None]). *)
Theorem resolve_example_malformed (op rs : gmap string pyval) :
  op !! "responses" = Some (PDict rs) →
  (∀ v, rs !! "200" = Some v → is_scalar v = true →
     resolve_example (PDict op) = Raise TypeError) ∧
  (∀ r content, rs !! "200" = Some (PDict r) →
     r !! "content" = Some content → is_dict content = false →
     resolve_example (PDict op) = Raise AttributeError) ∧
  (∀ r c media, rs !! "200" = Some (PDict r) →
     r !! "content" = Some (PDict c) →
     c !! "application/json" = Some media → is_dict media = false →
     resolve_example (PDict op) = Raise AttributeError).
Proof.
  intros Ers. rewrite resolve_example_in, Ers. cbn [default from_option id].
  repeat split.
  - intros v E200 Hv. unfold resolve_in.
    rewrite py_contains_dict, E200, !bind_Ok, (py_getitem_Some _ _ _ E200).
    by destruct v.
  - intros r content E200 Ec Hc. rewrite (resolve_in_200 _ _ E200), Ec.
    by destruct content.
  - intros r c media E200 Ec Em Hm. rewrite (resolve_in_200 _ _ E200), Ec.
    rewrite (py_get_Some _ _ _ _ Em), bind_Ok. by destruct media.
Qed.

Lemma resolve_example_malformed_witness :
  let op : gmap string pyval :=
    {["responses" := PDict {["200" := PDict {["content" :=
       PDict {["application/json" := PNone]}]}]}]} in
  resolve_example (PDict op) = Raise AttributeError.
Proof.
  intros op.
  destruct (resolve_example_malformed op
              {["200" := PDict {["content" :=
                 PDict {["application/json" := PNone]}]}]})
    as (_ & _ & H); [reflexivity|].
  apply (H {["content" := PDict {["application/json" := PNone]}]}
           {["application/json" := PNone]} PNone); reflexivity.
Defined.

(** ** Registration *)

(** The operations of a specification: template, method, operation.  They
    are listed in the order of the finite maps; the program visits them in
    the order of the file, which is a permutation of this list. *)
Definition operations_of (items : list (string * pyval))
    : list (string * string * pyval) :=
  items ≫= λ item,
    match item.2 with
    | PDict methods => (λ mo, (item.1, mo.1, mo.2)) <$> map_to_list methods
    | _ => []
    end.

Definition operations (openapi_spec : pyval) : list (string * string * pyval) :=
  match openapi_spec with
  | PDict s =>
      match s !! "paths" with
      | Some (PDict paths) => operations_of (map_to_list paths)
      | _ => []
      end
  | _ => []
  end.

(** The rule that registration makes of an operation. *)
Definition registered (entry : string * string * pyval) (r : rule) : Prop :=
  let '(openapi_path, method, operation) := entry in
  ∃ example,
    resolve_example operation = Ok example ∧
    r = Rule (convert_path openapi_path)
             (convert_path openapi_path +:+ "_" +:+ method)
             (create_handler operation example method)
             [upper method].

Lemma register_methods_rules openapi_path items : ∀ a a',
  register_methods (convert_path openapi_path) items a = Ok a' →
  ∃ new, url_map a' = (url_map a ++ new)%list ∧
         Forall2 registered ((λ mo, (openapi_path, mo.1, mo.2)) <$> items) new.
Proof.
  induction items as [|[method operation] rest IH]; intros a a';
    cbn [register_methods].
  { intros [= <-]. exists []. by rewrite app_nil_r. }
  intros (a1 & H1 & Hrest)%bind_Ok_inv.
  unfold register_operation in H1.
  apply bind_Ok_inv in H1 as (example & Hex & [= <-]).
  apply IH in Hrest as (new & Hmap & Hall).
  eexists (_ :: new). split.
  - rewrite Hmap. cbn [add_url_rule count_route url_map].
    by rewrite <- app_assoc.
  - rewrite fmap_cons. constructor; [|done]. by exists example.
Qed.

Lemma register_paths_rules items : ∀ a a',
  register_paths items a = Ok a' →
  ∃ new, url_map a' = (url_map a ++ new)%list ∧
         Forall2 registered (operations_of items) new.
Proof.
  induction items as [|[openapi_path methods] rest IH]; intros a a';
    cbn [register_paths].
  { intros [= <-]. exists []. by rewrite app_nil_r. }
  intros (method_items & Hitems & (a1 & H1 & Hrest)%bind_Ok_inv)%bind_Ok_inv.
  destruct methods as [| | | | | |m]; try discriminate.
  injection Hitems as <-.
  apply register_methods_rules in H1 as (new1 & Hmap1 & Hall1).
  apply IH in Hrest as (new2 & Hmap2 & Hall2).
  exists (new1 ++ new2)%list. split.
  - by rewrite Hmap2, Hmap1, <- app_assoc.
  - unfold operations_of. rewrite bind_cons. cbn [snd fst].
    by apply Forall2_app.
Qed.

Lemma elem_of_operations (s paths : gmap string pyval) p m op :
  s !! "paths" = Some (PDict paths) →
  (p, m, op) ∈ operations (PDict s) ↔
  ∃ methods, paths !! p = Some (PDict methods) ∧ methods !! m = Some op.
Proof.
  intros E. unfold operations, operations_of. rewrite E, list_elem_of_bind.
  split.
  - intros ([p' v] & Hin & Hp%elem_of_map_to_list). cbn [fst snd] in Hin.
    destruct v as [| | | | | |methods]; try by apply elem_of_nil in Hin.
    apply list_elem_of_fmap in Hin as ([m' op'] & [= -> -> ->] & Hm).
    exists methods. split; [done|]. by apply elem_of_map_to_list.
  - intros (methods & Hp & Hm). exists (p, PDict methods).
    split; [|by apply elem_of_map_to_list]. cbn [fst snd].
    apply list_elem_of_fmap. exists (m, op). split; [done|].
    by apply elem_of_map_to_list.
Qed.

Lemma register_routes_rules_of openapi_spec a v a' :
  register_routes openapi_spec a = Ok (v, a') →
  ∃ new ops, url_map a' = (url_map a ++ new)%list ∧
             ops ≡ₚ operations openapi_spec ∧
             Forall2 registered ops new.
Proof.
  unfold register_routes.
  intros (paths & Hpaths & (items & Hitems & (a1 & Hreg & [= <- <-])%bind_Ok_inv)
            %bind_Ok_inv)%bind_Ok_inv.
  apply register_paths_rules in Hreg as (new & Hmap & Hall).
  exists new, (operations openapi_spec). split; [done|]. split; [done|].
  destruct openapi_spec as [| | | | | |s]; try discriminate.
  unfold py_get in Hpaths. injection Hpaths as <-. unfold operations.
  destruct (s !! "paths") as [p|]; cbn [default from_option id] in Hitems.
  - destruct p as [| | | | | |d]; try discriminate.
    by injection Hitems as <-.
  - cbn [py_items] in Hitems. injection Hitems as <-.
    by rewrite map_to_list_empty in Hall.
Qed.



(** An operation whose example can be resolved. *)
Definition resolves (operation : pyval) : Prop :=
  ∃ example, resolve_example operation = Ok example.

Lemma register_methods_only_if flask_path items : ∀ a a',
  register_methods flask_path items a = Ok a' →
  Forall (λ item, resolves item.2) items.
Proof.
  induction items as [|[method operation] rest IH]; intros a a';
    cbn [register_methods]; [constructor|].
  intros (a1 & H1 & Hrest)%bind_Ok_inv.
  unfold register_operation in H1.
  apply bind_Ok_inv in H1 as (example & Hex & _).
  constructor; [by exists example | by eapply IH].
Qed.

Definition methods_resolve (methods : pyval) : Prop :=
  ∃ ms, methods = PDict ms ∧ map_Forall (λ _, resolves) ms.

Lemma register_paths_only_if items : ∀ a a',
  register_paths items a = Ok a' →
  Forall (λ item, methods_resolve item.2) items.
Proof.
  induction items as [|[openapi_path methods] rest IH]; intros a a';
    cbn [register_paths]; [constructor|].
  intros (method_items & Hitems & (a1 & H1 & Hrest)%bind_Ok_inv)%bind_Ok_inv.
  destruct methods as [| | | | | |ms]; try discriminate.
  injection Hitems as <-.
  constructor; [|by eapply IH].
  exists ms. split; [done|]. apply map_Forall_to_list.
  apply register_methods_only_if in H1.
  eapply Forall_impl; [exact H1|]. by intros [].
Qed.

(** X13. Registration is all or nothing: it completes only if ["paths"] is
    absent or a dict, every value under it is a dict of methods, and the
    example of every operation under every method resolves; one entry that
    is out of shape, anywhere, makes the whole registration raise.  When
    ["paths"] is there and is no dict (as the empty YAML entry), the
    exception is [AttributeError]. *)
Theorem register_routes_all_or_nothing (s : gmap string pyval) a :
  (∀ v a', register_routes (PDict s) a = Ok (v, a') →
     ∃ paths, default (PDict ∅) (s !! "paths") = PDict paths ∧
       ∀ p methods, paths !! p = Some methods →
         ∃ ms, methods = PDict ms ∧
           ∀ m operation, ms !! m = Some operation →
             ∃ example, resolve_example operation = Ok example) ∧
  (∀ v, s !! "paths" = Some v → is_dict v = false →
        register_routes (PDict s) a = Raise AttributeError).
Proof.
  split.
  - intros v a'. unfold register_routes, py_get. rewrite bind_Ok.
    intros (items & Hitems & (a1 & Hreg & _)%bind_Ok_inv)%bind_Ok_inv.
    destruct (default (PDict ∅) (s !! "paths")) as [| | | | | |paths];
      try discriminate.
    injection Hitems as <-. exists paths. split; [done|].
    apply register_paths_only_if in Hreg.
    intros p methods Hp.
    assert (Hin : (p, methods) ∈ map_to_list paths)
      by by apply elem_of_map_to_list.
    rewrite Forall_forall in Hreg.
    destruct (Hreg _ Hin) as (ms & Hms & Hall). cbn [snd] in Hms.
    exists ms. split; [done|]. intros m operation Hm. by apply (Hall m).
  - intros v Hv Hdict. unfold register_routes.
    rewrite (py_get_Some _ _ _ _ Hv), bind_Ok. by destruct v.
Qed.

Lemma register_routes_all_or_nothing_witness :
  let s : gmap string pyval := {["openapi" := PStr "3.1.0"; "paths" := PNone]} in
  s !! "paths" = Some PNone ∧
  register_routes (PDict s) (App [] None) = Raise AttributeError.
Proof.
  intros s. split; [reflexivity|].
  by apply (register_routes_all_or_nothing s (App [] None)) with (v := PNone).
Defined.

(** ** [MockyApp.routes] *)

Section routes.
(** [rule.methods] is Flask's: the methods a rule was given and those the
    router adds on its own (OPTIONS, and HEAD beside GET), in the order the
    set is iterated. *)
Variable methods_of : rule → list string.

(** One entry of the listing. *)
Definition route_entry (r : rule) : pyval :=
  PDict {["path" := PStr (rule_path r);
          "methods" :=
            PList (PStr <$> filter (λ m, m ≠ "HEAD") (methods_of r))]}.

Definition routes (a : app) : response :=
  jsonify (PList (route_entry <$> url_map a)).

(** X14. The route listing answers 200 with one entry per rule of the
    router, in the order of the rules; an entry names the path of its rule
    and the methods of the rule without HEAD, and HEAD is listed nowhere.
    After a registration that completes, the listing is the listing from
    before followed by one entry per operation of the specification, taken
    in some order, each under the converted template of its operation. *)
Theorem routes_lists_rules (a : app) :
  status (routes a) = 200 ∧
  (∃ entries,
     body (routes a) = PList entries ∧
     length entries = length (url_map a) ∧
     ∀ i r, url_map a !! i = Some r →
       ∃ ms, entries !! i =
               Some (PDict {["path" := PStr (rule_path r);
                             "methods" := PList (PStr <$> ms)]}) ∧
             ("HEAD" ∉ ms) ∧
             ∀ m, m ∈ ms ↔ m ∈ methods_of r ∧ m ≠ "HEAD") ∧
  (∀ openapi_spec v a',
     register_routes openapi_spec a = Ok (v, a') →
     ∃ new ops,
       body (routes a') = PList ((route_entry <$> url_map a) ++ new)%list ∧
       ops ≡ₚ operations openapi_spec ∧
       Forall2 (λ entry e, ∃ ms, e = PDict {["path" := PStr (convert_path entry.1.1);
                                             "methods" := PList (PStr <$> ms)]})
         ops new).
Proof.
  split; [done|]. split.
  - exists (route_entry <$> url_map a). split; [done|].
    split; [by rewrite length_fmap|].
    intros i r Hr. exists (filter (λ m, m ≠ "HEAD") (methods_of r)).
    split; [rewrite list_lookup_fmap, Hr; reflexivity|]. split.
    + by intros [H _]%list_elem_of_filter.
    + intros m. rewrite list_elem_of_filter. tauto.
  - intros openapi_spec v a' Hreg.
    destruct (register_routes_rules_of _ _ _ _ Hreg)
      as (new & ops & Hmap & Hops & Hall).
    exists (route_entry <$> new), ops. split; [|split; [exact Hops|]].
    + unfold routes, jsonify. cbn [body]. by rewrite Hmap, fmap_app.
    + apply Forall2_fmap_r. eapply Forall2_impl; [exact Hall|].
      intros [[p m] op] r (example & _ & ->). cbn [fst].
      by eexists.
Qed.
End routes.

Definition test_app : app :=
  match register_routes test_spec (App [] None) with
  | Ok (_, a') => a'
  | _ => App [] None
  end.

Lemma routes_lists_rules_witness :
  register_routes test_spec (App [] None) = Ok (PNone, test_app) ∧
  ∃ new, body (routes rule_methods test_app) = PList new ∧
         length new = 1%nat.
Proof.
  assert (Hreg : register_routes test_spec (App [] None) = Ok (PNone, test_app))
    by reflexivity.
  split; [exact Hreg|].
  destruct (routes_lists_rules rule_methods (App [] None)) as (_ & _ & H).
  destruct (H test_spec PNone test_app Hreg) as (new & ops & Hbody & Hops & Hall).
  exists new. split; [exact Hbody|].
  apply Forall2_length in Hall. apply Permutation_length in Hops.
  rewrite <- Hall, Hops. reflexivity.
Defined.

(** ** [MockyApp._parse_openapi] and [MockyApp.load_and_register_routes] *)

(** What start-up can raise: the [ValueError] of the loader with its
    message, or an exception of registration, passed on as it is. *)
Inductive boot_exc :=
| ValueError (message : string)
| Raised (e : pyexc).

(** What [load_and_register_routes] ends in. *)
Inductive boot (A : Type) :=
| Booted (a : A)
| Failed (e : boot_exc)
| BootOutOfModel.
Arguments Booted {A} a.
Arguments Failed {A} e.
Arguments BootOutOfModel {A}.

Section loader.
(** The file system and the two parsers are outside the repository.  A
    file is read as a function of its path: its text, or the message of the
    exception that [open] raises.  A parser gives the tree, or the message
    of the exception that it raises. *)
Variable open_file : string → string + string.
Variable yaml_safe_load : string → pyval + string.
Variable json_load : string → pyval + string.

(** The body of the [try] block: the tree, or the message of the exception
    that leaves the block. *)
Definition parse_file (file_path : string) : pyval + string :=
  match open_file file_path with
  | inr message => inr message
  | inl text =>
      if ends_with ".yaml" file_path || ends_with ".yml" file_path then
        yaml_safe_load text
      else if ends_with ".json" file_path then
        json_load text
      else inr "Unsupported file format. Use JSON or YAML."
  end.

(** [except Exception as e: raise ValueError(f"Failed to parse OpenAPI
    file: {e}")] *)
Definition or_value_error (attempt : pyval + string) : pyval + boot_exc :=
  match attempt with
  | inl v => inl v
  | inr message => inr (ValueError ("Failed to parse OpenAPI file: " +:+ message))
  end.

Definition _parse_openapi (file_path : string) : pyval + boot_exc :=
  or_value_error (parse_file file_path).

(** The first [try] block parses and registers and passes every exception
    on; the second reads the file again and returns its tree. *)
Definition load_and_register_routes (file : string) (a : app)
    : boot (pyval * app) :=
  match _parse_openapi file with
  | inr e => Failed e
  | inl openapi_spec =>
      match register_routes openapi_spec a with
      | Raise e => Failed (Raised e)
      | OutOfModel => BootOutOfModel
      | Ok (_, a') =>
          match or_value_error (parse_file file) with
          | inl tree => Booted (tree, a')
          | inr e => Failed e
          end
      end
  end.

(** The file name ends in [.yaml] or [.yml]. *)
Definition yaml_name (file_path : string) : bool :=
  ends_with ".yaml" file_path || ends_with ".yml" file_path.

(** X15. [_parse_openapi] picks the parser by the end of the file name, as
    it is written: YAML for [.yaml] and [.yml], else JSON for [.json].  It
    returns a tree exactly when the file opens and the parser picked
    returns that tree.  Whatever fails (the file does not open, the parser
    raises, the name ends in none of the three), the exception that leaves
    it is a [ValueError] whose message starts with
    ["Failed to parse OpenAPI file: "]; for a file that opens under another
    name the message ends in ["Unsupported file format. Use JSON or
    YAML."], whatever the file holds. *)
Theorem parse_openapi_spec (file_path : string) :
  (∀ tree, _parse_openapi file_path = inl tree ↔
     ∃ text, open_file file_path = inl text ∧
       (yaml_name file_path = true ∧ yaml_safe_load text = inl tree ∨
        yaml_name file_path = false ∧ ends_with ".json" file_path = true ∧
        json_load text = inl tree)) ∧
  (∀ e, _parse_openapi file_path = inr e →
     ∃ message, e = ValueError ("Failed to parse OpenAPI file: " +:+ message)) ∧
  (∀ text, open_file file_path = inl text →
     yaml_name file_path = false → ends_with ".json" file_path = false →
     _parse_openapi file_path =
     inr (ValueError
            "Failed to parse OpenAPI file: Unsupported file format. Use JSON or YAML.")).
Proof.
  unfold _parse_openapi, parse_file, yaml_name. repeat split.
  - destruct (open_file file_path) as [text|message]; [|done].
    intros H. exists text. split; [done|].
    destruct (ends_with ".yaml" file_path || ends_with ".yml" file_path).
    { left. split; [done|]. by destruct (yaml_safe_load text) as [|]; simplify_eq/=. }
    destruct (ends_with ".json" file_path); [|done].
    right. split; [done|]. split; [done|].
    by destruct (json_load text) as [|]; simplify_eq/=.
  - intros (text & -> & [[-> ->]|(-> & -> & ->)]); done.
  - intros e H.
    destruct (match open_file file_path with inl _ => _ | inr _ => _ end)
      as [|message]; [done|].
    exists message. by injection H as <-.
  - intros text -> -> ->. reflexivity.
Qed.

End loader.

Definition one_file (name text : string) (file_path : string) : string + string :=
  if String.eqb file_path name then inl text
  else inr ("[Errno 2] No such file or directory: '" +:+ file_path +:+ "'").

Lemma parse_openapi_spec_witness :
  let open_file := one_file "openapi.txt" "paths: {}" in
  let parser := λ _ : string, inl (B := string) (PDict ∅) in
  open_file "openapi.txt" = inl "paths: {}" ∧
  yaml_name "openapi.txt" = false ∧
  ends_with ".json" "openapi.txt" = false ∧
  _parse_openapi open_file parser parser "openapi.txt" =
  inr (ValueError
         "Failed to parse OpenAPI file: Unsupported file format. Use JSON or YAML.").
Proof.
  intros open_file parser.
  split; [reflexivity|]. split; [reflexivity|]. split; [reflexivity|].
  by apply (parse_openapi_spec open_file parser parser "openapi.txt")
    with (text := "paths: {}").
Defined.


(** ** Letter case of the method *)

Lemma upper_char_idempotent c : upper_char (upper_char c) = upper_char c.
Proof. by destruct c as [[] [] [] [] [] [] [] []]. Qed.

Lemma upper_idempotent s : upper (upper s) = upper s.
Proof.
  induction s as [|c r IH]; simpl; [done|].
  by rewrite upper_char_idempotent, IH.
Qed.

(** X17. The letter case of the method a handler is built with never
    matters: two methods with the same upper-case form, as [m] and
    [m.upper()], give the same outcome on every operation, example and
    request. *)
Theorem handler_method_case operation example method method' req :
  upper method = upper method' →
  create_handler operation example method req =
  create_handler operation example method' req ∧
  create_handler operation example (upper method) req =
  create_handler operation example method req.
Proof.
  intros Hm. unfold create_handler, handler.
  by rewrite upper_idempotent, Hm.
Qed.

Lemma handler_method_case_witness :
  upper "Delete" = upper "dElEtE" ∧
  create_handler (PDict ∅) PNone "Delete" (Request [] None (inr UnsupportedMediaType)) =
  create_handler (PDict ∅) PNone "dElEtE" (Request [] None (inr UnsupportedMediaType)).
Proof. split; [reflexivity|]. by apply handler_method_case. Defined.

(** ** Shared objects *)

(** X18. Run over a store of shared, mutable objects, a handler changes no
    object that was there and its outcome is that of the handler on trees:
    when the operation, the example and the parsed body stand for trees,
    whatever objects they share, the reply has the status of the reply on
    the trees and a body that stands for its body, and an exception is the
    same exception. *)
Theorem store_handler_agrees (σ : Store.store) operation top example tex
    method sreq req :
  Store.denotes σ operation top →
  Store.denotes σ example tex →
  request_denotes σ sreq req →
  ∃ r σ',
    Store.create_handler operation example method sreq σ = (r, σ') ∧
    σ ⊆ σ' ∧
    match create_handler top tex method req, r with
    | Ok b, Ok a =>
        Store.status a = status b ∧ Store.denotes σ' (Store.body a) (body b)
    | Raise e, Raise e' => e = e'
    | OutOfModel, OutOfModel => True
    | _, _ => False
    end.
Proof. intros Hop Hex Hreq. exact (handler_sim _ _ _ _ _ _ _ _ Hop Hex Hreq). Qed.

Lemma store_handler_agrees_witness :
  let sreq := Store.Request [("param1", "value1")] None (inr UnsupportedMediaType) in
  Store.denotes test_store (Store.VRef 1%positive) items_operation ∧
  Store.denotes test_store (Store.VRef 4%positive)
    (PDict {["message" := PStr "test"]}) ∧
  request_denotes test_store sreq
    (Request [("param1", "value1")] None (inr UnsupportedMediaType)) ∧
  ∃ a σ',
    Store.create_handler (Store.VRef 1%positive) (Store.VRef 4%positive)
      "get" sreq test_store = (Ok a, σ') ∧
    Store.status a = 200.
Proof.
  intros sreq.
  assert (Hop : Store.denotes test_store (Store.VRef 1%positive)
                  items_operation) by (exists 3%nat; vm_compute; reflexivity).
  assert (Hex : Store.denotes test_store (Store.VRef 4%positive)
                  (PDict {["message" := PStr "test"]}))
    by (exists 1%nat; vm_compute; reflexivity).
  assert (Hreq : request_denotes test_store sreq
                   (Request [("param1", "value1")] None (inr UnsupportedMediaType)))
    by (split; [reflexivity|]; split; reflexivity).
  split; [exact Hop|]. split; [exact Hex|]. split; [exact Hreq|].
  destruct (store_handler_agrees test_store _ _ _ _ "get" _ _ Hop Hex Hreq)
    as (r & σ' & Hrun & _ & Hr).
  assert (E : create_handler items_operation
                (PDict {["message" := PStr "test"]}) "get"
                (Request [("param1", "value1")] None (inr UnsupportedMediaType)) =
              Ok (Response
                    (PDict (<["query_params" :=
                                PDict {["param1" := PStr "value1"]}]>
                              {["message" := PStr "test"]})) 200))
    by (vm_compute; reflexivity).
  rewrite E in Hr. destruct r as [a| |]; [|exact (False_ind _ Hr)..].
  exists a, σ'. split; [exact Hrun|]. exact (proj1 Hr).
Defined.

(** X19. Run over the store, resolution changes no object that was there
    and yields what resolution on trees yields: a value that stands for the
    example of the tree of the operation, or the same exception. *)
Theorem store_resolve_example_agrees (σ : Store.store) operation top :
  Store.denotes σ operation top →
  ∃ r σ',
    Store.resolve_example operation σ = (r, σ') ∧
    σ ⊆ σ' ∧
    match resolve_example top, r with
    | Ok e, Ok v => Store.denotes σ' v e
    | Raise e, Raise e' => e = e'
    | OutOfModel, OutOfModel => True
    | _, _ => False
    end.
Proof. intros Hop. exact (resolve_example_sim _ _ _ Hop). Qed.

Lemma store_resolve_example_agrees_witness :
  Store.denotes test_store (Store.VRef 1%positive) items_operation ∧
  ∃ v σ', Store.resolve_example (Store.VRef 1%positive) test_store = (Ok v, σ') ∧
          Store.denotes σ' v
            (PDict {["status" := PInt 200; "message" := PStr "Default response"]}).
Proof.
  assert (Hop : Store.denotes test_store (Store.VRef 1%positive)
                  items_operation) by (exists 3%nat; vm_compute; reflexivity).
  split; [exact Hop|].
  destruct (store_resolve_example_agrees test_store _ _ Hop)
    as (r & σ' & Hrun & _ & Hr).
  assert (E : resolve_example items_operation =
              Ok (PDict {["status" := PInt 200;
                          "message" := PStr "Default response"]}))
    by (vm_compute; reflexivity).
  rewrite E in Hr. destruct r as [v| |]; [|exact (False_ind _ Hr)..].
  exists v, σ'. split; [exact Hrun | exact Hr].
Defined.
